(** * Habit tracker (app.py): a shallow embedding and its properties

    The definitions follow the layout of [app.py]:
    - [PyStr]: Python [str] values as sequences of code points, with the
      comparison, [strip], [replace] and the pattern search the program
      uses;
    - [Calendar]: calendar days and their ["%Y-%m-%d"] text;
    - [PyNum]: integer to float conversion, true division and [round];
    - [History]: the session's rolling history, [_init_history_if_needed]
      and [_upsert_today];
    - [Presentation]: the completion metrics of a render pass;
    - [Clients]: [get_weather], [get_dog_image] and [generate_report], with
      the servers as an explicit environment, a log of the requests issued
      and the data cache of the two decorated functions;
    - [Render]: the checked habits, the report button and the panels.

    The facts follow in the same order. *)

From Stdlib Require Import Ascii String.
From Stdlib Require Import ZArith NArith List Bool Lia Permutation Sorted.
From Stdlib Require Import PrimFloat FloatOps SpecFloat Uint63.
Import ListNotations.

(* ================================================================== *)
(** ** Python strings *)
(* ================================================================== *)

Module PyStr.

(** A Python [str] is a sequence of Unicode code points. *)
Definition pystr := list N.

(** String literals of the source, written as Rocq strings. *)
Definition lit (s : string) : pystr := map N_of_ascii (list_ascii_of_string s).

(** Python compares strings lexicographically by code point. *)
Fixpoint compare (a b : pystr) : comparison :=
  match a, b with
  | [], [] => Eq
  | [], _ :: _ => Lt
  | _ :: _, [] => Gt
  | x :: a', y :: b' =>
      match N.compare x y with
      | Eq => compare a' b'
      | c => c
      end
  end.

(** [a == b], [a < b] *)
Definition eqb (a b : pystr) : bool :=
  match compare a b with Eq => true | _ => false end.
Definition ltb (a b : pystr) : bool :=
  match compare a b with Lt => true | _ => false end.

Definition lt (a b : pystr) : Prop := compare a b = Lt.
Definition le (a b : pystr) : Prop := compare a b <> Gt.

Definition eq_dec : forall a b : pystr, {a = b} + {a <> b} :=
  list_eq_dec N.eq_dec.

(** Truth value of a string: [not s] holds for the empty string only. *)
Definition nonempty (s : pystr) : bool :=
  match s with [] => false | _ :: _ => true end.

(** [s or t] *)
Definition or_else (s t : pystr) : pystr := if nonempty s then s else t.

(** The characters [str.strip()] removes: those for which [str.isspace()]
    holds (tab to carriage return, the separators 0x1C to 0x1F, space,
    NEL, no-break space and the Unicode space separators). *)
Definition is_space (c : N) : bool :=
  ((9 <=? c) && (c <=? 13) || (28 <=? c) && (c <=? 32) ||
   (c =? 133) || (c =? 160) || (c =? 5760) ||
   (8192 <=? c) && (c <=? 8202) || (c =? 8232) || (c =? 8233) ||
   (c =? 8239) || (c =? 8287) || (c =? 12288))%N.

Fixpoint lstrip (s : pystr) : pystr :=
  match s with
  | [] => []
  | c :: s' => if is_space c then lstrip s' else s
  end.

Definition rstrip (s : pystr) : pystr := rev (lstrip (rev s)).

(** [s.strip()] *)
Definition strip (s : pystr) : pystr := rstrip (lstrip s).

(** [s] without the prefix [p], if it starts with it. *)
Fixpoint strip_prefix (p s : pystr) : option pystr :=
  match p, s with
  | [], _ => Some s
  | _ :: _, [] => None
  | x :: p', y :: s' => if (x =? y)%N then strip_prefix p' s' else None
  end.

(** [s.replace(old, new)] for a non-empty [old]: occurrences are replaced
    from the left and do not overlap; [skip] counts the characters of an
    occurrence still to be passed over. *)
Fixpoint replace_from (old new : pystr) (skip : nat) (s : pystr) : pystr :=
  match s with
  | [] => []
  | c :: s' =>
      match skip with
      | S k => replace_from old new k s'
      | O =>
          match strip_prefix old s with
          | Some _ => new ++ replace_from old new (length old - 1) s'
          | None => c :: replace_from old new 0 s'
          end
      end
  end.

(** [s.replace(old, new)]; with an empty [old], Python puts [new] before
    every character and at the end. *)
Definition replace (old new s : pystr) : pystr :=
  match old with
  | [] => new ++ flat_map (fun c => c :: new) s
  | _ :: _ => replace_from old new 0 s
  end.

(** *** The pattern [r"/breeds/([^/]+)/"] *)

Definition slash : N := 47.

(** The longest run of characters matching [[^/]] and what follows it. *)
Fixpoint span_no_slash (s : pystr) : pystr * pystr :=
  match s with
  | [] => ([], [])
  | c :: s' =>
      if (c =? slash)%N then ([], s)
      else let (g, tl) := span_no_slash s' in (c :: g, tl)
  end.

(** A match of the pattern starting at the first character of [s]; the
    result is group 1.  The group is greedy, and since it stops only at a
    slash or at the end, giving characters back cannot produce a match
    where the longest run fails. *)
Definition match_breeds_at (s : pystr) : option pystr :=
  match strip_prefix (lit "/breeds/") s with
  | Some rest =>
      match span_no_slash rest with
      | ((_ :: _) as g, _ :: _) => Some g
      | _ => None
      end
  | None => None
  end.

(** [m = re.search(r"/breeds/([^/]+)/", s)] followed by [m.group(1)]:
    the leftmost position where the pattern matches. *)
Fixpoint search_breeds (s : pystr) : option pystr :=
  match match_breeds_at s with
  | Some g => Some g
  | None =>
      match s with
      | [] => None
      | _ :: s' => search_breeds s'
      end
  end.

(** The property the pattern describes: [s] holds a path segment
    [/breeds/<label>/] with a non-empty label free of slashes, and [pre] is
    what comes before it. *)
Definition breeds_segment (pre label post s : pystr) : Prop :=
  s = pre ++ lit "/breeds/" ++ label ++ [slash] ++ post /\
  label <> [] /\ ~ In slash label.

End PyStr.

(* ================================================================== *)
(** ** Dates and their text *)
(* ================================================================== *)

Module Calendar.
Import PyStr.

(** A calendar day, as [datetime.now().date()] gives it. *)
Record date := {
  year : N;
  month : N;
  day : N
}.

(** Days whose year has four digits; on these [%Y] gives the four digits
    on every platform. *)
Definition four_digit_year (d : date) : Prop :=
  (1000 <= year d <= 9999 /\ 1 <= month d <= 12 /\ 1 <= day d <= 31)%N.

Definition digit (n : N) : N := (48 + n)%N.

(** [%m] and [%d]: two digits; [%Y]: four digits. *)
Definition pad2 (n : N) : pystr :=
  [digit (n / 10); digit (n mod 10)]%N.

Definition pad4 (n : N) : pystr :=
  [digit (n / 1000); digit (n / 100 mod 10); digit (n / 10 mod 10);
   digit (n mod 10)]%N.

(** [_date_str]: [d.strftime("%Y-%m-%d")] *)
Definition _date_str (d : date) : pystr :=
  pad4 (year d) ++ lit "-" ++ pad2 (month d) ++ lit "-" ++ pad2 (day d).

(** The order of the calendar. *)
Definition date_compare (a b : date) : comparison :=
  match (year a ?= year b)%N with
  | Eq =>
      match (month a ?= month b)%N with
      | Eq => (day a ?= day b)%N
      | c => c
      end
  | c => c
  end.

Definition before (a b : date) : Prop := date_compare a b = Lt.

End Calendar.

(* ================================================================== *)
(** ** Python numbers *)
(* ================================================================== *)

Module PyNum.

(** [float(n)] for an integer of less than 63 bits, as the program's
    integers are; floats are IEEE 754 binary64. *)
Definition float_of_int (n : Z) : float :=
  if (n <? 0)%Z then PrimFloat.opp (PrimFloat.of_uint63 (Uint63.of_Z (- n)))
  else PrimFloat.of_uint63 (Uint63.of_Z n).

(** [a / b] on integers: true division, a float. *)
Definition true_div (a b : Z) : float :=
  PrimFloat.div (float_of_int a) (float_of_int b).

(** The integer nearest to [m * 2^e], ties going to the even one. *)
Definition nearest_even (m : positive) (e : Z) : Z :=
  if (0 <=? e)%Z then (Zpos m * 2 ^ e)%Z
  else
    let d := (2 ^ (- e))%Z in
    let q := (Zpos m / d)%Z in
    match (2 * (Zpos m mod d) ?= d)%Z with
    | Lt => q
    | Gt => (q + 1)%Z
    | Eq => if Z.even q then q else (q + 1)%Z
    end.

(** [round(x)] on a float, without digits: an integer, or an exception
    ([None]) for an infinity or a NaN. *)
Definition round (x : float) : option Z :=
  match Prim2SF x with
  | S754_zero _ => Some 0%Z
  | S754_infinity _ => None
  | S754_nan => None
  | S754_finite s m e =>
      let v := nearest_even m e in Some (if s then (- v)%Z else v)
  end.

(** The integer nearest to the exact quotient [n / d] for [d > 0], ties
    going to the even one: rounding without floating point. *)
Definition nearest_even_ratio (n d : Z) : Z :=
  let q := (n / d)%Z in
  match (2 * (n mod d) ?= d)%Z with
  | Lt => q
  | Gt => (q + 1)%Z
  | Eq => if Z.even q then q else (q + 1)%Z
  end.

End PyNum.

(* ================================================================== *)
(** ** Session state: history *)
(* ================================================================== *)

Module History.
Import PyStr.

(** One row of [st.session_state.history]: the dict
    [{"date": ..., "rate": ..., "completed": ..., "mood": ...}]. *)
Record DailyRecord := Row {
  date : pystr;
  rate : Z;
  completed : Z;
  mood : Z
}.

Definition history := list DailyRecord.

Definition dates (h : history) : list pystr := map date h.

(** [next((i for i, r in enumerate(hist) if r["date"] == today_str), None)] *)
Fixpoint index_of (today_str : pystr) (hist : history) : option nat :=
  match hist with
  | [] => None
  | r :: hist' =>
      if eqb (date r) today_str then Some 0%nat
      else option_map S (index_of today_str hist')
  end.

(** [hist[idx] = row], for an index the caller found in [hist] *)
Fixpoint set_item (idx : nat) (x : DailyRecord) (hist : history) : history :=
  match hist, idx with
  | [], _ => []
  | _ :: hist', O => x :: hist'
  | r :: hist', S i => r :: set_item i x hist'
  end.

(** [sorted(hist, key=lambda x: x["date"])]: Python's sort is stable and
    compares keys with [<].  Insertion from the right, each row placed
    before the first row whose key is not smaller, is such a sort. *)
Fixpoint insert (x : DailyRecord) (l : history) : history :=
  match l with
  | [] => [x]
  | y :: l' => if ltb (date y) (date x) then y :: insert x l' else x :: y :: l'
  end.

Definition sorted (l : history) : history := fold_right insert [] l.

(** [l[-n:]] for a positive [n] *)
Definition last_n (n : nat) (l : history) : history :=
  skipn (length l - n) l.

(** [_upsert_today].  The reading of the clock,
    [datetime.now().date().strftime("%Y-%m-%d")], is the argument
    [today_str]; [st.session_state.history] is passed in and returned.
    [int(rate)], [int(completed)] and [int(mood)] are applied to integers
    and leave them as they are. *)
Definition _upsert_today (today_str : pystr) (rate completed mood : Z)
    (hist : history) : history :=
  let idx := index_of today_str hist in
  let row := Row today_str rate completed mood in
  let hist :=
    match idx with
    | None => hist ++ [row]
    | Some idx => set_item idx row hist
    end in
  (* keep the latest 7 days *)
  let hist_sorted := sorted hist in
  last_n 7 hist_sorted.

(** The list between the update and the sort: [hist] after the [append]
    or the item assignment. *)
Definition put (x : DailyRecord) (hist : history) : history :=
  match index_of (date x) hist with
  | None => hist ++ [x]
  | Some idx => set_item idx x hist
  end.

(** [_init_history_if_needed]: the demo rows of the six days before
    today and today's empty row, unless the session has a history.  The
    calendar is a parameter: [day_str n] is the ["%Y-%m-%d"] text of the
    day with ordinal [n], so that [today - timedelta(days=i)] is
    [today - i]. *)
Definition preset_rates : list Z := [40; 60; 80; 20; 100; 60]%Z.
Definition preset_moods : list Z := [5; 6; 7; 4; 8; 6]%Z.

Definition sample_row (day_str : Z -> pystr) (today : Z) (i : nat)
  : option DailyRecord :=
  let r := nth (6 - i) preset_rates 0%Z in
  match PyNum.round (PrimFloat.mul (PyNum.true_div r 100) (PyNum.float_of_int 5)) with
  | Some k =>
      Some (Row (day_str (today - Z.of_nat i)%Z) r k (nth (6 - i) preset_moods 0%Z))
  | None => None
  end.

Fixpoint collect (l : list (option DailyRecord)) : option history :=
  match l with
  | [] => Some []
  | Some x :: l' => option_map (cons x) (collect l')
  | None :: _ => None
  end.

Definition _init_history_if_needed (day_str : Z -> pystr) (today : Z)
    (session : option history) : option history :=
  match session with
  | Some hist => Some hist
  | None =>
      match collect (map (sample_row day_str today) [6; 5; 4; 3; 2; 1]%nat) with
      | Some sample => Some (sample ++ [Row (day_str today) 0 0 5])
      | None => None
      end
  end.

(** The stores of a session: the seeded one, and what [_upsert_today]
    makes of a store of the session, whatever the clock shows. *)
Inductive session_store (day_str : Z -> pystr) : history -> Prop :=
  | store_seeded (today : Z) (h : history) :
      _init_history_if_needed day_str today None = Some h ->
      session_store day_str h
  | store_upsert (today_str : pystr) (rate completed mood : Z) (h : history) :
      session_store day_str h ->
      session_store day_str (_upsert_today today_str rate completed mood h).

(** A sequence of render passes: each one calls [_upsert_today] with the
    date read from the clock and the metrics of the pass. *)
Definition call := (pystr * (Z * Z * Z))%type.

Definition call_date (c : call) : pystr := fst c.

Definition upsert_call (hist : history) (c : call) : history :=
  let '(d, (r, k, m)) := c in _upsert_today d r k m hist.

Definition run (calls : list call) (hist : history) : history :=
  fold_left upsert_call calls hist.

(** The number of distinct dates the clock showed over a sequence. *)
Definition distinct_dates (calls : list call) : nat :=
  length (nodup eq_dec (map call_date calls)).

(** The store's invariant: at most one row per date. *)
Definition wf (h : history) : Prop := NoDup (dates h).

(** Rows of the store that carry a given date, and the number of rows
    with a later date. *)
Definition rows_for (d : pystr) (h : history) : history :=
  filter (fun r => eqb (date r) d) h.

Definition later_than (d : pystr) (h : history) : history :=
  filter (fun r => ltb d (date r)) h.

Definition date_lt (a b : DailyRecord) : Prop := lt (date a) (date b).
Definition date_le (a b : DailyRecord) : Prop := le (date a) (date b).

(** *** A sample session *)

(** Seven render passes on seven consecutive days, from the empty
    history. *)
Definition week : list call :=
  [(lit "2024-01-02", (40, 2, 5)); (lit "2024-01-03", (60, 3, 6));
   (lit "2024-01-04", (80, 4, 7)); (lit "2024-01-05", (20, 1, 4));
   (lit "2024-01-06", (100, 5, 8)); (lit "2024-01-07", (60, 3, 6));
   (lit "2024-01-08", (0, 0, 5))]%Z.

Definition full_store : history := run week [].

End History.

(* ================================================================== *)
(** ** Session state: views of the history *)
(* ================================================================== *)

Module HistoryViews.
Import PyStr History.

(** The row [x] put in the place of the rows that carry its date. *)
Definition replace_row (x y : DailyRecord) : DailyRecord :=
  if eqb (date y) (date x) then x else y.

(** The calendar is increasing over the week that ends today. *)
Definition week_ascending (day_str : Z -> pystr) (today : Z) : Prop :=
  forall i j : Z, (0 <= i < j)%Z -> (j <= 6)%Z ->
    lt (day_str (today - j)%Z) (day_str (today - i)%Z).

(** A calendar for examples: day [n] of January 2024, for [n] from 10
    to 99. *)
Definition january (n : Z) : pystr :=
  lit "2024-01-" ++ [48 + Z.to_N (n / 10); 48 + Z.to_N (n mod 10)]%N.

End HistoryViews.

(* ================================================================== *)
(** ** Main UI: today's metrics *)
(* ================================================================== *)

Module Presentation.
Import PyStr.

(** [completed_count = sum(flags)], the flags being the five checkboxes *)
Definition completed_count (flags : list bool) : Z :=
  fold_left (fun acc (b : bool) => (acc + Z.b2z b)%Z) flags 0%Z.

(** [rate = int(round(completed_count / 5 * 100))]; [None] stands for
    the exception [round] raises on a non-finite float. *)
Definition rate (completed_count : Z) : option Z :=
  PyNum.round
    (PrimFloat.mul (PyNum.true_div completed_count 5) (PyNum.float_of_int 100)).

(** The completion rate as the specification words it: the exact value of
    completed_count / 5 * 100 rounded to the nearest integer. *)
Definition rate_exact (completed_count : Z) : Z :=
  PyNum.nearest_even_ratio (completed_count * 100) 5.

(** One render pass up to the history update: the metrics are computed
    and written to today's row. *)
Definition render_metrics (today_str : pystr) (flags : list bool) (mood : Z)
    (hist : History.history) : option History.history :=
  let completed_count := completed_count flags in
  match rate completed_count with
  | Some rate =>
      Some (History._upsert_today today_str rate completed_count mood hist)
  | None => None
  end.

End Presentation.

(* ================================================================== *)
(** ** Utilities / API functions *)
(* ================================================================== *)

Module Clients.
Import PyStr.

(** *** Values and exceptions *)

(** What [r.json()] can return. *)
#[warnings="-register-all"]
Inductive pyval : Type :=
  | PNone
  | PBool (b : bool)
  | PInt (n : Z)
  | PFloat (x : float)
  | PStr (s : pystr)
  | PList (l : list pyval)
  | PDict (d : list (pystr * pyval)).

(** The exceptions the modelled operations raise; all of them are
    subclasses of [Exception]. *)
Inductive exn : Type :=
  | RequestException
  | JSONDecodeError
  | AttributeError
  | TypeError
  | KeyError
  | IndexError
  | OpenAIError
  | ValueError
  | RecursionError
  | UnserializableReturnValueError.

Inductive outcome (A : Type) : Type :=
  | Return (a : A)
  | Raise (e : exn).
Arguments Return {A} a.
Arguments Raise {A} e.

(** Truth value, as [not x], [x or y] and [if x] take it. *)
Definition truthy (v : pyval) : bool :=
  match v with
  | PNone => false
  | PBool b => b
  | PInt n => negb (n =? 0)%Z
  | PFloat x => negb (PrimFloat.eqb x PrimFloat.zero)
  | PStr s => nonempty s
  | PList l => match l with [] => false | _ :: _ => true end
  | PDict d => match d with [] => false | _ :: _ => true end
  end.

(** [a or b] *)
Definition py_or (a b : pyval) : pyval := if truthy a then a else b.

Fixpoint lookup (k : pystr) (d : list (pystr * pyval)) : option pyval :=
  match d with
  | [] => None
  | (k', v) :: d' => if eqb k' k then Some v else lookup k d'
  end.

(** [v.get(k)]: a dict answers, with [None] for a missing key; no other
    JSON value has the method. *)
Definition get (v : pyval) (k : pystr) : outcome pyval :=
  match v with
  | PDict d =>
      match lookup k d with
      | Some x => Return x
      | None => Return PNone
      end
  | _ => Raise AttributeError
  end.

(** [v[0]] *)
Definition item0 (v : pyval) : outcome pyval :=
  match v with
  | PList (x :: _) => Return x
  | PList [] => Raise IndexError
  | PStr (c :: _) => Return (PStr [c])
  | PStr [] => Raise IndexError
  | PDict _ => Raise KeyError
  | _ => Raise TypeError
  end.

(** [v != s] for a string [s] *)
Definition differs_from_str (v : pyval) (s : pystr) : bool :=
  match v with
  | PStr t => negb (eqb t s)
  | _ => true
  end.

(** *** Results *)

(** The dict [get_weather] returns. *)
Record WeatherSnapshot := {
  city : pystr;
  description : pyval;
  temp : pyval;
  feels_like : pyval;
  humidity : pyval
}.

(** The dict [get_dog_image] returns. *)
Record ImageSnapshot := {
  url : pystr;
  breed : pystr
}.

(** *** The outside world *)

(** The three fixed instruction texts of [_coach_system_prompt]. *)
Inductive persona : Type := SpartanCoach | WarmMentor | GameMaster.

(** The data [generate_report] puts into its prompt; the fixed wording
    around them is left out. *)
Record user_payload := {
  p_date : pystr;
  p_city : pystr;
  p_mood : Z;
  p_completed_habits : list pystr;
  p_weather : option WeatherSnapshot;
  p_dog : option ImageSnapshot
}.

Inductive request : Type :=
  | HttpGet (url : pystr) (params : list (pystr * pystr)) (timeout : Z)
  | ResponsesCreate (api_key model : pystr) (instructions : persona)
      (input : user_payload).

(** A response object: its status and what [r.json()] gives, [None] when
    the body does not parse and the call raises. *)
Record response := {
  status_code : Z;
  json : option pyval
}.

(** [requests.get] either raises (no connection, timeout) or returns. *)
Inductive http_reply : Type :=
  | HttpFailed
  | HttpReplied (r : response).

(** [client.responses.create] either raises or returns a response with
    its [output_text]. *)
Inductive llm_reply : Type :=
  | LlmFailed
  | LlmReplied (output_text : option pystr).

(** The environment of one call: what the servers answer, the time, and
    what the interpreter's stack allows.  [store_error v] is what leaves
    Streamlit's cache when it pickles the list or object [v] and
    [pickle.dumps] fails, as it does with RecursionError on a value nested
    deeper than the stack can follow; [None] when the value is stored.
    [prompt_error p] is what building the prompt from the data [p] raises
    for the same kind of reason (printing a value nested too deep), [None]
    when nothing of the kind happens. *)
Record env := {
  http : request -> http_reply;
  llm : request -> llm_reply;
  now : Z;
  store_error : pyval -> option exn;
  prompt_error : user_payload -> option exn
}.

(** An entry of Streamlit's data cache. *)
Record entry (V : Type) := {
  stored_at : Z;
  value : V
}.
Arguments stored_at {V} e.
Arguments value {V} e.

(** The state the calls act on: the requests issued so far, and the two
    caches of [st.cache_data]. *)
Record world := {
  log : list request;
  weather_cache : list ((pystr * pystr) * entry (option WeatherSnapshot));
  dog_cache : list (unit * entry (option ImageSnapshot))
}.

Definition M (A : Type) : Type := env -> world -> outcome A * world.

Definition ret {A : Type} (a : A) : M A := fun _ w => (Return a, w).

Definition bind {A B : Type} (m : M A) (k : A -> M B) : M B :=
  fun e w =>
    match m e w with
    | (Return a, w') => k a e w'
    | (Raise x, w') => (Raise x, w')
    end.

Definition lift {A : Type} (o : outcome A) : M A := fun _ w => (o, w).

(** [try: body except Exception: handler] *)
Definition try_except {A : Type} (body handler : M A) : M A :=
  fun e w =>
    match body e w with
    | (Return a, w') => (Return a, w')
    | (Raise _, w') => handler e w'
    end.

Notation "x <- m ;; k" := (bind m (fun x => k))
  (at level 61, m at next level, right associativity).

Definition issue (q : request) (w : world) : world :=
  {| log := log w ++ [q];
     weather_cache := weather_cache w;
     dog_cache := dog_cache w |}.

(** [requests.get(url, params=params, timeout=timeout)] *)
Definition requests_get (url : pystr) (params : list (pystr * pystr))
    (timeout : Z) : M response :=
  fun e w =>
    let q := HttpGet url params timeout in
    match http e q with
    | HttpFailed => (Raise RequestException, issue q w)
    | HttpReplied r => (Return r, issue q w)
    end.

(** [r.json()] *)
Definition json_of (r : response) : M pyval :=
  match json r with
  | Some data => ret data
  | None => lift (Raise JSONDecodeError)
  end.

(** [OpenAI(api_key=...).responses.create(model=..., instructions=...,
    input=...)] followed by [resp.output_text] *)
Definition responses_create (api_key model : pystr) (instructions : persona)
    (input : user_payload) : M (option pystr) :=
  fun e w =>
    let q := ResponsesCreate api_key model instructions input in
    match llm e q with
    | LlmFailed => (Raise OpenAIError, issue q w)
    | LlmReplied t => (Return t, issue q w)
    end.

(** *** [st.cache_data(ttl=...)] *)

(** The value stored for a key, if the entry is not older than [ttl]. *)
Fixpoint cached {K V : Type} (keq : K -> K -> bool) (ttl t : Z) (k : K)
    (c : list (K * entry V)) : option V :=
  match c with
  | [] => None
  | (k', en) :: c' =>
      if keq k' k then
        if (t <? stored_at en + ttl)%Z then Some (value en) else None
      else cached keq ttl t k c'
  end.

(** The decorated function: a stored value is returned without running
    the body; otherwise the body runs and what it returns is pickled and
    stored.  The pickling happens after the body has returned, outside
    its [try]: when it fails ([fails e v] is an exception) nothing is
    stored and the call raises.  An exception of the body stores
    nothing. *)
Definition cache_data {K V : Type} (keq : K -> K -> bool) (ttl : Z)
    (read : world -> list (K * entry V))
    (write : list (K * entry V) -> world -> world)
    (fails : env -> V -> option exn)
    (f : K -> M V) (k : K) : M V :=
  fun e w =>
    match cached keq ttl (now e) k (read w) with
    | Some v => (Return v, w)
    | None =>
        match f k e w with
        | (Return v, w') =>
            match fails e v with
            | None =>
                (Return v,
                 write ((k, {| stored_at := now e; value := v |}) :: read w')
                   w')
            | Some x => (Raise x, w')
            end
        | (Raise x, w') => (Raise x, w')
        end
    end.

(** What storing a JSON value raises: nothing for [None], booleans,
    numbers and strings; for a list or an object what the environment
    decides. *)
Definition nested (v : pyval) : bool :=
  match v with
  | PList _ => true
  | PDict _ => true
  | _ => false
  end.

Definition store_value_error (e : env) (v : pyval) : option exn :=
  if nested v then store_error e v else None.

Definition first_error (a b : option exn) : option exn :=
  match a with
  | Some x => Some x
  | None => b
  end.

(** What storing the result of [get_weather] raises: nothing for [None],
    for a snapshot the first error of its four JSON values. *)
Definition store_weather_error (e : env) (v : option WeatherSnapshot)
  : option exn :=
  match v with
  | None => None
  | Some s =>
      first_error (store_value_error e (description s))
        (first_error (store_value_error e (temp s))
           (first_error (store_value_error e (feels_like s))
              (store_value_error e (humidity s))))
  end.

(** The result of [get_dog_image] holds strings only and is always
    stored. *)
Definition store_dog_error (e : env) (v : option ImageSnapshot) : option exn :=
  None.

Definition write_weather_cache
    (c : list ((pystr * pystr) * entry (option WeatherSnapshot))) (w : world)
  : world :=
  {| log := log w; weather_cache := c; dog_cache := dog_cache w |}.

Definition write_dog_cache
    (c : list (unit * entry (option ImageSnapshot))) (w : world) : world :=
  {| log := log w; weather_cache := weather_cache w; dog_cache := c |}.

Definition key_eqb (a b : pystr * pystr) : bool :=
  eqb (fst a) (fst b) && eqb (snd a) (snd b).

(** *** [get_weather] *)

Definition weather_request (city api_key : pystr) : request :=
  HttpGet (lit "https://api.openweathermap.org/data/2.5/weather")
    [(lit "q", city); (lit "appid", api_key);
     (lit "units", lit "metric"); (lit "lang", lit "kr")]
    10.

(** The function as written, without its decorator. *)
Definition get_weather_body (city api_key : pystr)
  : M (option WeatherSnapshot) :=
  if negb (nonempty api_key) then ret None
  else
    try_except
      (let url := lit "https://api.openweathermap.org/data/2.5/weather" in
       let params :=
         [(lit "q", city); (lit "appid", api_key);
          (lit "units", lit "metric"); (lit "lang", lit "kr")] in
       r <- requests_get url params 10 ;;
       if negb (status_code r =? 200)%Z then ret None
       else
         data <- json_of r ;;
         w <- lift (get data (lit "weather")) ;;
         first <- lift (item0 (py_or w (PList [PDict []]))) ;;
         weather_desc <- lift (get first (lit "description")) ;;
         m <- lift (get data (lit "main")) ;;
         let main := py_or m (PDict []) in
         temp <- lift (get main (lit "temp")) ;;
         feels_like <- lift (get main (lit "feels_like")) ;;
         humidity <- lift (get main (lit "humidity")) ;;
         ret (Some {| city := city;
                      description := weather_desc;
                      temp := temp;
                      feels_like := feels_like;
                      humidity := humidity |}))
      (ret None).

(** [get_weather] under [@st.cache_data(ttl=600)]: the cache key is the
    pair of arguments. *)
Definition get_weather (city api_key : pystr) : M (option WeatherSnapshot) :=
  cache_data key_eqb 600 weather_cache write_weather_cache store_weather_error
    (fun k => get_weather_body (fst k) (snd k)) (city, api_key).

(** *** [get_dog_image] *)

Definition dog_request : request :=
  HttpGet (lit "https://dog.ceo/api/breeds/image/random") [] 10.

(** [re.search(r"/breeds/([^/]+)/", img_url)] on a JSON value: the
    function wants a string. *)
Definition search_breeds_in (img_url : pyval) : outcome (pystr * option pystr) :=
  match img_url with
  | PStr s => Return (s, search_breeds s)
  | _ => Raise TypeError
  end.

(** Lines 90 to 95: the breed from the match, ["unknown"] without one or
    when nothing is left of it. *)
Definition breed_of (m : option pystr) : pystr :=
  let breed :=
    match m with
    | Some g => Some (strip (replace (lit "-") (lit " ") g))
    | None => None
    end in
  match breed with
  | Some b => or_else b (lit "unknown")
  | None => lit "unknown"
  end.

Definition get_dog_image_body : M (option ImageSnapshot) :=
  try_except
    (let url := lit "https://dog.ceo/api/breeds/image/random" in
     r <- requests_get url [] 10 ;;
     if negb (status_code r =? 200)%Z then ret None
     else
       data <- json_of r ;;
       status <- lift (get data (lit "status")) ;;
       if differs_from_str status (lit "success") then ret None
       else
         img_url <- lift (get data (lit "message")) ;;
         if negb (truthy img_url) then ret None
         else
           sm <- lift (search_breeds_in img_url) ;;
           let (s, m) := sm in
           ret (Some {| url := s; breed := breed_of m |}))
    (ret None).

(** [get_dog_image] under [@st.cache_data(ttl=600)]: no arguments, one
    cache entry. *)
Definition get_dog_image : M (option ImageSnapshot) :=
  cache_data (fun _ _ : unit => true) 600 dog_cache write_dog_cache
    store_dog_error (fun _ => get_dog_image_body) tt.

(** *** [generate_report] *)

Definition style_spartan : pystr :=
  [49828; 54028; 47476; 53440; 32; 53076; 52824]%N.
Definition style_mentor : pystr :=
  [46384; 46907; 54620; 32; 47704; 53664]%N.

Definition _coach_system_prompt (style : pystr) : persona :=
  if eqb style style_spartan then SpartanCoach
  else if eqb style style_mentor then WarmMentor
  else GameMaster.

(** [str(n)] and [repr(n)], which the f-strings and [json.dumps] use,
    raise ValueError on an integer of more than 4300 digits, the default
    limit of the interpreter. *)
Definition int_prints (n : Z) : bool := (Z.abs n <? 10 ^ 4300)%Z.

Fixpoint prints (v : pyval) : bool :=
  match v with
  | PInt n => int_prints n
  | PList l => forallb prints l
  | PDict d => forallb (fun kv => prints (snd kv)) d
  | _ => true
  end.

Definition payload_prints (p : user_payload) : bool :=
  int_prints (p_mood p) &&
  match p_weather p with
  | Some s =>
      prints (description s) && prints (temp s) && prints (feels_like s) &&
      prints (humidity s)
  | None => true
  end.

(** Lines 143 to 184: the weather line, the dog line, the payload and
    the prompt with its [json.dumps].  They stand before the [try] of
    line 186, so that what they raise leaves the function: what the
    environment decides ([prompt_error]), and ValueError when an integer
    of the data is too long to print.  The result stands for the prompt:
    the data put into it. *)
Definition build_user_msg (payload : user_payload) : M user_payload :=
  fun e w =>
    match prompt_error e payload with
    | Some x => (Raise x, w)
    | None =>
        if payload_prints payload then (Return payload, w)
        else (Raise ValueError, w)
    end.

Definition generate_report (openai_api_key coach_style date_str city : pystr)
    (mood : Z) (habits_checked : list pystr)
    (weather : option WeatherSnapshot) (dog : option ImageSnapshot)
  : M (option pystr) :=
  if negb (nonempty openai_api_key) then ret None
  else
    let system := _coach_system_prompt coach_style in
    let user_payload :=
      {| p_date := date_str;
         p_city := city;
         p_mood := mood;
         p_completed_habits := habits_checked;
         p_weather := weather;
         p_dog := dog |} in
    user_msg <- build_user_msg user_payload ;;
    try_except
      (output_text <- responses_create openai_api_key (lit "gpt-5-mini")
                        system user_msg ;;
       let text :=
         strip (match output_text with
                | Some t => or_else t []
                | None => []
                end) in
       ret (if nonempty text then Some text else None))
      (ret None).

(** The breed as the specification words it: the label with every
    hyphen turned into a space. *)
Definition hyphens_to_spaces (label : pystr) : pystr :=
  map (fun c => if (c =? 45)%N then 32%N else c) label.

(** A label whose first and last characters are neither hyphens nor
    whitespace. *)
Definition plain_ends (label : pystr) : Prop :=
  (exists c t, label = c :: t /\ c <> 45%N /\ is_space c = false) /\
  (exists t c, label = t ++ [c] /\ c <> 45%N /\ is_space c = false).

(** [pre], [label], [post] cut [s] at its first breed segment. *)
Definition first_segment (pre label post s : pystr) : Prop :=
  breeds_segment pre label post s /\
  forall pre' label' post', breeds_segment pre' label' post' s ->
    (length pre <= length pre')%nat.

(** *** What the caches may hold *)

(** Every stored weather result is one the body can have returned for its
    key: nothing for an empty credential, and a snapshot of the key's
    city. *)
Definition weather_entry_ok
    (ke : (pystr * pystr) * entry (option WeatherSnapshot)) : Prop :=
  let '((c, k), en) := ke in
  (k = [] -> value en = None) /\
  (forall s, value en = Some s -> city s = c).

Definition cache_ok (w : world) : Prop :=
  Forall weather_entry_ok (weather_cache w).

Definition fresh_world : world :=
  {| log := []; weather_cache := []; dog_cache := [] |}.

(** What the caches hold for a call made now, if anything. *)
Definition weather_cached (e : env) (w : world) (city api_key : pystr)
  : option (option WeatherSnapshot) :=
  cached key_eqb 600 (now e) (city, api_key) (weather_cache w).

Definition dog_cached (e : env) (w : world) : option (option ImageSnapshot) :=
  cached (fun _ _ : unit => true) 600 (now e) tt (dog_cache w).

(** *** Failing replies *)

Definition is_dict (v : pyval) : bool :=
  match v with PDict _ => true | _ => false end.

(** A reply that carries no payload: the request failed, the status is
    not 200, the body does not parse, or it parses to something that is
    not an object. *)
Definition no_payload (rep : http_reply) : Prop :=
  match rep with
  | HttpFailed => True
  | HttpReplied r =>
      status_code r <> 200%Z \/ json r = None \/
      (exists data, json r = Some data /\ is_dict data = false)
  end.

(** A payload of the image service without an image: the status field is
    not ["success"], or the message is missing or empty. *)
Definition no_image (data : pyval) : Prop :=
  get data (lit "status") <> Return (PStr (lit "success")) \/
  (exists v, get data (lit "message") = Return v /\ truthy v = false).

(** *** Sample servers *)

(** An image service answering with the given URL. *)
Definition dog_server (img_url : pystr) : env :=
  {| http := fun _ =>
       HttpReplied
         {| status_code := 200;
            json := Some (PDict [(lit "status", PStr (lit "success"));
                                 (lit "message", PStr img_url)]) |};
     llm := fun _ => LlmFailed;
     now := 0;
     store_error := fun _ => None;
     prompt_error := fun _ => None |}.

(** A weather service answering every request with an empty object, and
    a model answering with the given text. *)
Definition bare_server (text : pystr) : env :=
  {| http := fun _ =>
       HttpReplied {| status_code := 200; json := Some (PDict []) |};
     llm := fun _ => LlmReplied (Some text);
     now := 0;
     store_error := fun _ => None;
     prompt_error := fun _ => None |}.

(** A server that is down. *)
Definition dead_server : env :=
  {| http := fun _ => HttpFailed;
     llm := fun _ => LlmFailed;
     now := 0;
     store_error := fun _ => None;
     prompt_error := fun _ => None |}.

End Clients.

(* ================================================================== *)
(** ** Main UI: check-in and report *)
(* ================================================================== *)

Module Render.
Import PyStr Clients.

(** [habits]: the five habits, each an emoji and a name. *)
Definition habits : list (pystr * pystr) :=
  [([127749], [44592; 49345; 32; 48120; 49496]);
   ([128167], [47932; 32; 47560; 49884; 44592]);
   ([128218], [44277; 48512; 47; 46021; 49436]);
   ([127939], [50868; 46041; 54616; 44592]);
   ([128564], [49688; 47732])]%N.

(** The loop over [zip(habits, flags)]: the names of the habits whose
    box is checked, in the order of the list. *)
Fixpoint checked_of (habits : list (pystr * pystr)) (flags : list bool)
  : list pystr :=
  match habits, flags with
  | (emoji, name) :: habits', is_on :: flags' =>
      if is_on then name :: checked_of habits' flags'
      else checked_of habits' flags'
  | _, _ => []
  end.

Definition checked (flags : list bool) : list pystr := checked_of habits flags.


(** The report panel: the text, or one of two error messages. *)
Inductive report_panel : Type :=
  | ReportText (text : pystr)
  | KeyRequired
  | GenerationFailed.

Definition show_report (openai_key : pystr) (report : option pystr)
  : report_panel :=
  let error :=
    if negb (nonempty openai_key) then KeyRequired else GenerationFailed in
  match report with
  | Some t => if nonempty t then ReportText t else error
  | None => error
  end.

(** The image panel: [if dog and dog.get("url")], the image and its
    caption, or else ([None]) the warning. *)
Definition show_dog (dog : option ImageSnapshot) : option (pystr * pystr) :=
  match dog with
  | Some s => if nonempty (url s) then Some (url s, breed s) else None
  | None => None
  end.

(** The value of a key in an object, [None] when it is missing. *)
Definition field (d : list (pystr * pyval)) (k : pystr) : pyval :=
  match lookup k d with
  | Some v => v
  | None => PNone
  end.

(** What the image cache may hold: snapshots with a URL and a breed. *)
Definition dog_entry_ok (ke : unit * entry (option ImageSnapshot)) : Prop :=
  forall s, value (snd ke) = Some s ->
    url s <> [] /\ breed s = breed_of (search_breeds (url s)).

Definition dog_cache_ok (w : world) : Prop :=
  Forall dog_entry_ok (dog_cache w).

(** The requests a call of [get_weather], [get_dog_image] and
    [generate_report] adds to the log. *)
Definition weather_requests (e : env) (w : world) (city api_key : pystr)
  : list request :=
  match weather_cached e w city api_key with
  | Some _ => []
  | None => if nonempty api_key then [weather_request city api_key] else []
  end.

Definition dog_requests (e : env) (w : world) : list request :=
  match dog_cached e w with
  | Some _ => []
  | None => [dog_request]
  end.

Definition report_request (openai_key coach_style date_str city : pystr)
    (mood : Z) (habits_checked : list pystr)
    (weather : option WeatherSnapshot) (dog : option ImageSnapshot)
  : request :=
  ResponsesCreate openai_key (lit "gpt-5-mini")
    (_coach_system_prompt coach_style)
    {| p_date := date_str; p_city := city; p_mood := mood;
       p_completed_habits := habits_checked;
       p_weather := weather; p_dog := dog |}.

(** A weather service that answers every request with a full payload,
    and a model that answers "ok". *)
Definition sunny_server : env :=
  {| http := fun _ =>
       HttpReplied
         {| status_code := 200;
            json := Some (PDict
              [(lit "weather",
                PList [PDict [(lit "description", PStr (lit "clear sky"))]]);
               (lit "main",
                PDict [(lit "temp", PInt 21); (lit "feels_like", PInt 20);
                       (lit "humidity", PInt 40)])]) |};
     llm := fun _ => LlmReplied (Some (lit "ok"));
     now := 0;
     store_error := fun _ => None;
     prompt_error := fun _ => None |}.

(** A weather service whose payload has a text where the list of weather
    entries should be. *)
Definition odd_server : env :=
  {| http := fun _ =>
       HttpReplied
         {| status_code := 200;
            json := Some (PDict [(lit "weather", PStr (lit "rain"))]) |};
     llm := fun _ => LlmFailed;
     now := 0;
     store_error := fun _ => None;
     prompt_error := fun _ => None |}.

End Render.

(* ================================================================== *)
(** ** Facts about string comparison *)
(* ================================================================== *)

Module PyStrFacts.
Import PyStr.

Lemma compare_refl (a : pystr) : compare a a = Eq.
Proof.
  induction a as [|x a IH]; simpl; [reflexivity|].
  now rewrite N.compare_refl.
Qed.

Lemma compare_eq (a b : pystr) : compare a b = Eq -> a = b.
Proof.
  revert b; induction a as [|x a IH]; intros [|y b]; simpl; try discriminate; auto.
  destruct (N.compare x y) eqn:E; try discriminate.
  apply N.compare_eq_iff in E. intros H. f_equal; auto.
Qed.

Lemma compare_antisym (a b : pystr) : compare b a = CompOpp (compare a b).
Proof.
  revert b; induction a as [|x a IH]; intros [|y b]; simpl; auto.
  rewrite (N.compare_antisym x y).
  destruct (N.compare x y); simpl; auto.
Qed.

Lemma eqb_eq (a b : pystr) : eqb a b = true <-> a = b.
Proof.
  unfold eqb; split.
  - destruct (compare a b) eqn:E; try discriminate. intros _. now apply compare_eq.
  - intros ->. now rewrite compare_refl.
Qed.

Lemma eqb_neq (a b : pystr) : eqb a b = false <-> a <> b.
Proof.
  rewrite <- eqb_eq. destruct (eqb a b); split; congruence.
Qed.

Lemma eqb_refl (a : pystr) : eqb a a = true.
Proof. now apply eqb_eq. Qed.

Lemma ltb_lt (a b : pystr) : ltb a b = true <-> lt a b.
Proof. unfold ltb, lt. destruct (compare a b); split; congruence. Qed.

Lemma ltb_ge (a b : pystr) : ltb a b = false <-> le b a.
Proof.
  unfold ltb, le. rewrite (compare_antisym a b).
  destruct (compare a b); simpl; split; congruence.
Qed.

Lemma lt_irrefl (a : pystr) : ~ lt a a.
Proof. unfold lt. rewrite compare_refl. discriminate. Qed.

Lemma lt_trans (a b c : pystr) : lt a b -> lt b c -> lt a c.
Proof.
  unfold lt. revert b c; induction a as [|x a IH]; intros [|y b] [|z c]; simpl;
    try discriminate; auto.
  destruct (N.compare x y) eqn:Exy; try discriminate;
  destruct (N.compare y z) eqn:Eyz; try discriminate; intros H1 H2.
  - apply N.compare_eq_iff in Exy, Eyz. subst. rewrite N.compare_refl. eauto.
  - apply N.compare_eq_iff in Exy. subst. now rewrite Eyz.
  - apply N.compare_eq_iff in Eyz. subst. now rewrite Exy.
  - rewrite N.compare_lt_iff in Exy, Eyz.
    assert (E : N.compare x z = Lt) by (apply N.compare_lt_iff; lia).
    now rewrite E.
Qed.

Lemma le_lteq (a b : pystr) : le a b <-> lt a b \/ a = b.
Proof.
  unfold le, lt. split.
  - destruct (compare a b) eqn:E; try congruence; auto.
    right. now apply compare_eq.
  - intros [H | ->]; [congruence | rewrite compare_refl; discriminate].
Qed.

Lemma le_refl (a : pystr) : le a a.
Proof. apply le_lteq. now right. Qed.

Lemma lt_le (a b : pystr) : lt a b -> le a b.
Proof. intros H. apply le_lteq. now left. Qed.

Lemma le_trans (a b c : pystr) : le a b -> le b c -> le a c.
Proof.
  rewrite !le_lteq. intros [H1 | ->] [H2 | ->]; auto.
  left. eapply lt_trans; eauto.
Qed.

Lemma le_lt_trans (a b c : pystr) : le a b -> lt b c -> lt a c.
Proof. rewrite le_lteq. intros [H1 | ->] H2; auto. eapply lt_trans; eauto. Qed.

Lemma lt_le_trans (a b c : pystr) : lt a b -> le b c -> lt a c.
Proof. rewrite le_lteq. intros H1 [H2 | <-]; auto. eapply lt_trans; eauto. Qed.

Lemma lt_not_le (a b : pystr) : lt a b -> ~ le b a.
Proof.
  intros H1 H2. apply (lt_irrefl a). eapply lt_le_trans; eauto.
Qed.

Lemma le_total (a b : pystr) : le a b \/ le b a.
Proof.
  unfold le. rewrite (compare_antisym a b).
  destruct (compare a b); simpl; [left | left | right]; discriminate.
Qed.

Lemma lt_neq (a b : pystr) : lt a b -> a <> b.
Proof. intros H ->. exact (lt_irrefl _ H). Qed.

Lemma le_neq_lt (a b : pystr) : le a b -> a <> b -> lt a b.
Proof. rewrite le_lteq. intros [H | H] N; [assumption | contradiction]. Qed.

(** *** [strip] *)

Lemma lstrip_spec (s : pystr) :
  exists l, s = l ++ lstrip s /\ forallb is_space l = true /\
    (lstrip s = [] \/ exists c t, lstrip s = c :: t /\ is_space c = false).
Proof.
  induction s as [|c s (l & E & F & T)]; simpl.
  - exists []. auto.
  - destruct (is_space c) eqn:Ec.
    + exists (c :: l). simpl. rewrite Ec, F. repeat split; auto. now f_equal.
    + exists []. repeat split; auto. right. now exists c, s.
Qed.

Lemma rstrip_spec (s : pystr) :
  exists r, s = rstrip s ++ r /\ forallb is_space r = true /\
    (rstrip s = [] \/ exists t c, rstrip s = t ++ [c] /\ is_space c = false).
Proof.
  unfold rstrip. destruct (lstrip_spec (rev s)) as (l & E & F & T).
  exists (rev l). repeat split.
  - rewrite <- rev_app_distr, <- E. now rewrite rev_involutive.
  - rewrite forallb_forall in *. intros x Hx. apply F. now apply in_rev.
  - destruct T as [-> | (c & t & -> & Hc)]; [now left | right].
    exists (rev t), c. now simpl.
Qed.




(** What [strip] does: it cuts a run of whitespace at each end, and what
    is left neither starts nor ends with whitespace. *)
Lemma strip_spec (s : pystr) :
  exists l r, s = l ++ strip s ++ r /\
    forallb is_space l = true /\ forallb is_space r = true /\
    (strip s = [] \/
     (exists c t, strip s = c :: t /\ is_space c = false) /\
     (exists t c, strip s = t ++ [c] /\ is_space c = false)).
Proof.
  unfold strip.
  destruct (lstrip_spec s) as (l & E & Fl & Tl).
  destruct (rstrip_spec (lstrip s)) as (r & E' & Fr & Tr).
  exists l, r. repeat split; auto.
  - now rewrite <- E'.
  - destruct Tr as [Z | Tr]; [now left | right]. split; auto.
    destruct Tl as [Z | (c & t & Ec & Hc)].
    + rewrite Z in *. destruct Tr as (t & c & Et & _).
      unfold rstrip in Et. simpl in Et. now destruct t.
    + destruct (rstrip (lstrip s)) as [|c' t'] eqn:R.
      * simpl in E'. rewrite <- E', Ec in Fr. simpl in Fr.
        rewrite Hc in Fr. discriminate.
      * exists c', t'. split; auto. rewrite Ec in E'. simpl in E'.
        injection E' as <- _. exact Hc.
Qed.


Lemma lstrip_id (c : N) (t : pystr) :
  is_space c = false -> lstrip (c :: t) = c :: t.
Proof. intros H. simpl. now rewrite H. Qed.

(** A string that neither starts nor ends with whitespace is left as it
    is. *)
Lemma strip_id (s : pystr) :
  (exists c t, s = c :: t /\ is_space c = false) ->
  (exists t c, s = t ++ [c] /\ is_space c = false) ->
  strip s = s.
Proof.
  intros (c & t & E & Hc) (t' & c' & E' & Hc').
  unfold strip. rewrite E at 1. rewrite lstrip_id by assumption. rewrite <- E.
  unfold rstrip. rewrite E', rev_app_distr. simpl. rewrite Hc'.
  simpl. now rewrite rev_involutive.
Qed.

(** *** [replace] *)

Lemma replace_char (a b : N) (s : pystr) :
  replace [a] [b] s = map (fun c => if (c =? a)%N then b else c) s.
Proof.
  unfold replace. induction s as [|c s IH]; simpl; auto.
  rewrite (N.eqb_sym a c). destruct (c =? a)%N; simpl; now f_equal.
Qed.

(** *** The search for the breed segment *)

Lemma strip_prefix_Some (p s r : pystr) :
  strip_prefix p s = Some r <-> s = p ++ r.
Proof.
  revert s; induction p as [|x p IH]; intros s; simpl.
  - split; congruence.
  - destruct s as [|y s]; [split; discriminate|].
    destruct (N.eqb_spec x y) as [-> | N].
    + rewrite IH. split; congruence.
    + split; [discriminate | congruence].
Qed.

Lemma span_no_slash_spec (s : pystr) :
  s = fst (span_no_slash s) ++ snd (span_no_slash s) /\
  ~ In slash (fst (span_no_slash s)) /\
  (snd (span_no_slash s) = [] \/
   exists tl, snd (span_no_slash s) = slash :: tl).
Proof.
  induction s as [|c s (E & I & T)]; simpl.
  - intuition.
  - destruct (N.eqb_spec c slash) as [-> | N]; simpl.
    + repeat split; auto. right. now exists s.
    + destruct (span_no_slash s) as (g, tl). simpl in *.
      repeat split; auto; [now f_equal | intuition].
Qed.

Lemma span_no_slash_app (g post : pystr) :
  ~ In slash g -> span_no_slash (g ++ slash :: post) = (g, slash :: post).
Proof.
  induction g as [|c g IH]; simpl; intros H.
  - reflexivity.
  - destruct (N.eqb_spec c slash) as [-> | N]; [exfalso; auto|].
    rewrite IH by tauto. reflexivity.
Qed.

(** A match at the start of [s] is a breed segment with nothing before
    it. *)
Lemma match_breeds_at_Some (s g : pystr) :
  match_breeds_at s = Some g <-> exists post, breeds_segment [] g post s.
Proof.
  unfold match_breeds_at, breeds_segment. split.
  - destruct (strip_prefix (lit "/breeds/") s) as [rest|] eqn:E; [|discriminate].
    apply strip_prefix_Some in E.
    destruct (span_no_slash_spec rest) as (E' & I & T).
    destruct (span_no_slash rest) as (g', tl). simpl in *.
    destruct g' as [|c g']; [discriminate|].
    destruct tl as [|c' tl]; [discriminate|].
    intros [= <-]. destruct T as [T | (tl' & [= -> ->])]; [discriminate T|].
    exists tl'. split; [|split; [discriminate | exact I]].
    rewrite E, E'. reflexivity.
  - intros (post & E & Ne & I). simpl app in E.
    assert (P : strip_prefix (lit "/breeds/") s = Some (g ++ slash :: post)).
    { apply strip_prefix_Some. exact E. }
    rewrite P, span_no_slash_app by assumption.
    destruct g; [contradiction | reflexivity].
Qed.

Lemma breeds_segment_cons (c : N) (pre g post s : pystr) :
  breeds_segment (c :: pre) g post (c :: s) <-> breeds_segment pre g post s.
Proof.
  unfold breeds_segment. simpl. split; intros (E & H); split; auto; congruence.
Qed.

Lemma breeds_segment_uncons (pre g post s : pystr) :
  breeds_segment pre g post s ->
  (pre = [] /\ match_breeds_at s = Some g) \/
  (exists c pre' s', pre = c :: pre' /\ s = c :: s' /\
                     breeds_segment pre' g post s').
Proof.
  intros H. destruct pre as [|c pre].
  - left. split; auto. apply match_breeds_at_Some. now exists post.
  - right. destruct H as (E & H). exists c, pre, (pre ++ lit "/breeds/" ++ g ++ [slash] ++ post).
    repeat split; auto; tauto.
Qed.

(** The search finds a segment, and no segment starts further left. *)
Lemma search_breeds_Some (s g : pystr) :
  search_breeds s = Some g ->
  exists pre post, breeds_segment pre g post s /\
    forall pre' g' post', breeds_segment pre' g' post' s ->
      (length pre <= length pre')%nat.
Proof.
  induction s as [|c s IH]; simpl.
  - discriminate.
  - destruct (match_breeds_at (c :: s)) as [g0|] eqn:M.
    + intros [= ->]. apply match_breeds_at_Some in M as (post & M).
      exists [], post. split; auto. intros. simpl. lia.
    + intros H. apply IH in H as (pre & post & B & L).
      exists (c :: pre), post. split; [now apply breeds_segment_cons|].
      intros pre' g' post' B'.
      apply breeds_segment_uncons in B' as [(-> & M') | (c' & p' & s' & -> & [= <- <-] & B')].
      * congruence.
      * simpl. apply L in B'. lia.
Qed.

(** The leftmost segment is the one the search returns. *)
Lemma search_breeds_leftmost (pre g post s : pystr) :
  breeds_segment pre g post s ->
  (forall pre' g' post', breeds_segment pre' g' post' s ->
     (length pre <= length pre')%nat) ->
  search_breeds s = Some g.
Proof.
  revert s; induction pre as [|c pre IH]; intros s B L.
  - assert (M : match_breeds_at s = Some g).
    { apply match_breeds_at_Some. now exists post. }
    destruct s as [|c s]; [vm_compute in M; discriminate M|].
    simpl. now rewrite M.
  - destruct B as (E & B). simpl in E. subst s.
    assert (Bt : breeds_segment pre g post
                   (pre ++ lit "/breeds/" ++ g ++ [slash] ++ post))
      by (split; [reflexivity | exact B]).
    simpl.
    destruct (match_breeds_at (c :: _)) as [g0|] eqn:M.
    + apply match_breeds_at_Some in M as (post0 & M).
      apply L in M. simpl in M. lia.
    + apply IH; [exact Bt|]. intros pre' g' post' B'.
      pose proof (proj2 (breeds_segment_cons c _ _ _ _) B') as B2.
      apply L in B2. simpl in B2. lia.
Qed.

(** The search fails exactly on strings without a segment. *)
Lemma search_breeds_None (s : pystr) :
  search_breeds s = None <->
  forall pre g post, ~ breeds_segment pre g post s.
Proof.
  split.
  - induction s as [|c s IH]; simpl.
    + intros _ pre g post (E & _). destruct pre; discriminate.
    + destruct (match_breeds_at (c :: s)) eqn:M; [discriminate|].
      intros H pre g post B.
      apply breeds_segment_uncons in B as [(-> & M') | (c' & p' & s' & -> & [= <- <-] & B')].
      * congruence.
      * exact (IH H _ _ _ B').
  - intros H. destruct (search_breeds s) as [g|] eqn:S; auto.
    apply search_breeds_Some in S as (pre & post & B & _).
    exfalso. exact (H _ _ _ B).
Qed.

End PyStrFacts.


(* ================================================================== *)
(** ** Facts about the text of dates *)
(* ================================================================== *)

Module CalendarFacts.
Import PyStr PyStrFacts Calendar.

Lemma digits4 (y : N) :
  (y < 10000)%N ->
  (y = 1000 * (y / 1000) + 100 * (y / 100 mod 10) + 10 * (y / 10 mod 10)
       + y mod 10 /\
   y / 1000 < 10 /\ y / 100 mod 10 < 10 /\ y / 10 mod 10 < 10 /\
   y mod 10 < 10)%N.
Proof. intros H. zify. Z.to_euclidean_division_equations. lia. Qed.

Lemma digits2 (n : N) :
  (n < 100)%N -> (n = 10 * (n / 10) + n mod 10 /\ n / 10 < 10 /\ n mod 10 < 10)%N.
Proof. intros H. zify. Z.to_euclidean_division_equations. lia. Qed.

Lemma compare_digit (a b : N) (s t : pystr) :
  compare (digit a :: s) (digit b :: t) =
  match (a ?= b)%N with Eq => compare s t | c => c end.
Proof.
  cbn [compare]. unfold digit.
  assert (E : (48 + a ?= 48 + b)%N = (a ?= b)%N).
  { destruct (N.compare_spec a b) as [-> | H | H].
    - apply N.compare_refl.
    - apply N.compare_lt_iff. lia.
    - apply N.compare_gt_iff. lia. }
  now rewrite E.
Qed.

Lemma compare_same_head (c : N) (s t : pystr) :
  compare (c :: s) (c :: t) = compare s t.
Proof. cbn [compare]. now rewrite N.compare_refl. Qed.

Ltac split_compare :=
  repeat match goal with
         | |- context [(?x ?= ?y)%N] => destruct (N.compare_spec x y)
         end.

(** On days with a four-digit year, the order of the texts is the order
    of the calendar. *)
Lemma date_str_compare (a b : date) :
  four_digit_year a -> four_digit_year b ->
  compare (_date_str a) (_date_str b) = date_compare a b.
Proof.
  intros (Ya & Ma & Da) (Yb & Mb & Db).
  destruct (digits4 (year a)) as (Ey & ?Hy); [lia|].
  destruct (digits4 (year b)) as (Ey' & ?Hy); [lia|].
  destruct (digits2 (month a)) as (Em & ?Hm); [lia|].
  destruct (digits2 (month b)) as (Em' & ?Hm); [lia|].
  destruct (digits2 (day a)) as (Ed & ?Hd); [lia|].
  destruct (digits2 (day b)) as (Ed' & ?Hd); [lia|].
  unfold _date_str, pad4, pad2, date_compare.
  change (lit "-") with [45%N]. cbn [app].
  rewrite !compare_digit, compare_same_head, !compare_digit,
    compare_same_head, !compare_digit.
  cbn [compare].
  generalize dependent (year a / 1000)%N.
  generalize dependent (year a / 100 mod 10)%N.
  generalize dependent (year a / 10 mod 10)%N.
  generalize dependent (year a mod 10)%N.
  generalize dependent (year b / 1000)%N.
  generalize dependent (year b / 100 mod 10)%N.
  generalize dependent (year b / 10 mod 10)%N.
  generalize dependent (year b mod 10)%N.
  generalize dependent (month a / 10)%N.
  generalize dependent (month a mod 10)%N.
  generalize dependent (month b / 10)%N.
  generalize dependent (month b mod 10)%N.
  generalize dependent (day a / 10)%N.
  generalize dependent (day a mod 10)%N.
  generalize dependent (day b / 10)%N.
  generalize dependent (day b mod 10)%N.
  intros. split_compare; try reflexivity; exfalso; lia.
Qed.

Lemma date_str_lt (a b : date) :
  four_digit_year a -> four_digit_year b ->
  (lt (_date_str a) (_date_str b) <-> before a b).
Proof.
  intros Ha Hb. unfold lt, before. now rewrite date_str_compare.
Qed.

Lemma date_str_inj (a b : date) :
  four_digit_year a -> four_digit_year b ->
  _date_str a = _date_str b -> a = b.
Proof.
  intros Ha Hb E.
  assert (C : date_compare a b = Eq).
  { rewrite <- date_str_compare by assumption. rewrite E. apply compare_refl. }
  unfold date_compare in C. destruct a as [ya ma da], b as [yb mb db].
  simpl in C.
  destruct (N.compare_spec ya yb); try discriminate.
  destruct (N.compare_spec ma mb); try discriminate.
  apply N.compare_eq_iff in C. congruence.
Qed.

End CalendarFacts.

(* ================================================================== *)
(** ** The order of dates and of their texts *)
(* ================================================================== *)

Module CalendarLaws.
Import PyStr PyStrFacts Calendar CalendarFacts.

(** X18: on days with a four-digit year, the text [_date_str] gives is
    ten characters long, different days have different texts, and one
    text is smaller than another, in the order the sort of the history
    uses, exactly when its day comes first in the calendar. *)
Theorem date_text_order (a b : date)
    (Ha : four_digit_year a) (Hb : four_digit_year b) :
  length (_date_str a) = 10%nat /\
  (_date_str a = _date_str b -> a = b) /\
  (lt (_date_str a) (_date_str b) <-> before a b) /\
  (ltb (_date_str a) (_date_str b) = true <-> before a b).
Proof.
  split; [reflexivity|]. split; [now apply date_str_inj|].
  assert (L : lt (_date_str a) (_date_str b) <-> before a b).
  { unfold lt, before. now rewrite date_str_compare. }
  split; [exact L|]. now rewrite ltb_lt.
Qed.

Lemma date_text_order_witness :
  ltb (_date_str {| year := 2023; month := 12; day := 31 |})
      (_date_str {| year := 2024; month := 1; day := 1 |}) = true.
Proof.
  assert (Ha : four_digit_year {| year := 2023; month := 12; day := 31 |})
    by (unfold four_digit_year; simpl; lia).
  assert (Hb : four_digit_year {| year := 2024; month := 1; day := 1 |})
    by (unfold four_digit_year; simpl; lia).
  destruct (date_text_order _ _ Ha Hb) as (_ & _ & _ & H).
  apply H. reflexivity.
Defined.

End CalendarLaws.
(* ================================================================== *)
(** ** Facts about the history store *)
(* ================================================================== *)

Module HistoryFacts.
Import PyStr PyStrFacts History.

(** The dates of the store are texts of calendar days, and on those the
    order the sort uses is the order of the calendar. *)
Lemma date_lt_chronological (a b : Calendar.date) (x y : DailyRecord) :
  Calendar.four_digit_year a -> Calendar.four_digit_year b ->
  date x = Calendar._date_str a -> date y = Calendar._date_str b ->
  (date_lt x y <-> Calendar.before a b).
Proof.
  intros Ha Hb Ex Ey. unfold date_lt. rewrite Ex, Ey.
  now apply CalendarFacts.date_str_lt.
Qed.

(** *** The update before the sort *)

Lemma index_of_None (d : pystr) (h : history) :
  index_of d h = None <-> ~ In d (dates h).
Proof.
  induction h as [|r h IH]; simpl.
  - tauto.
  - destruct (eqb (date r) d) eqn:E.
    + apply eqb_eq in E. split; [discriminate | intros H; exfalso; auto].
    + apply eqb_neq in E. destruct (index_of d h); simpl.
      * split; [discriminate|]. intros H. exfalso. apply H. right.
        apply Decidable.not_not; [|intros N; now apply IH in N].
        destruct (in_dec eq_dec d (dates h)); [now left | now right].
      * split; [|reflexivity]. intros _ [H | H]; [auto|]. now apply IH.
Qed.

Lemma set_item_dates (d : pystr) (x : DailyRecord) (h : history) (i : nat) :
  index_of d h = Some i -> date x = d -> dates (set_item i x h) = dates h.
Proof.
  revert i; induction h as [|r h IH]; simpl; intros i; [discriminate|].
  destruct (eqb (date r) d) eqn:E.
  - intros [= <-] Hx. simpl. apply eqb_eq in E. congruence.
  - destruct (index_of d h) as [j|]; simpl; [|discriminate].
    intros [= <-] Hx. simpl. f_equal. now apply IH.
Qed.

Lemma set_item_length (x : DailyRecord) (h : history) (i : nat) :
  length (set_item i x h) = length h.
Proof.
  revert i; induction h as [|r h IH]; intros [|i]; simpl; auto.
Qed.

Lemma set_item_In (x y : DailyRecord) (h : history) (i : nat) :
  In y (set_item i x h) -> y = x \/ In y h.
Proof.
  revert i; induction h as [|r h IH]; intros [|i]; simpl; try tauto.
  - intros [H | H]; auto.
  - intros [H | H]; auto. apply IH in H. tauto.
Qed.

Lemma set_item_keeps (d : pystr) (x y : DailyRecord) (h : history) (i : nat) :
  index_of d h = Some i -> In y h -> date y <> d -> In y (set_item i x h).
Proof.
  revert i; induction h as [|r h IH]; simpl; intros i; [discriminate|].
  destruct (eqb (date r) d) eqn:E.
  - intros [= <-] [-> | H] N; simpl; [|now right].
    apply eqb_eq in E. contradiction.
  - destruct (index_of d h) as [j|]; simpl; [|discriminate].
    intros [= <-] [-> | H] N; simpl; [now left | right]. now apply IH.
Qed.

Lemma set_item_has (d : pystr) (x : DailyRecord) (h : history) (i : nat) :
  index_of d h = Some i -> In x (set_item i x h).
Proof.
  revert i; induction h as [|r h IH]; simpl; intros i; [discriminate|].
  destruct (eqb (date r) d).
  - intros [= <-]. now left.
  - destruct (index_of d h) as [j|]; simpl; [|discriminate].
    intros [= <-]. right. now apply IH.
Qed.

(** The dates after the update: unchanged when the date is present,
    extended at the end when it is not. *)
Lemma put_dates (x : DailyRecord) (h : history) :
  dates (put x h) =
  if in_dec eq_dec (date x) (dates h) then dates h else dates h ++ [date x].
Proof.
  unfold put. destruct (index_of (date x) h) as [i|] eqn:E.
  - destruct (in_dec eq_dec (date x) (dates h)) as [_|N].
    + now apply set_item_dates with (d := date x).
    + apply index_of_None in N. congruence.
  - destruct (in_dec eq_dec (date x) (dates h)) as [I|_].
    + apply index_of_None in E. contradiction.
    + unfold dates. now rewrite map_app.
Qed.

Lemma put_length (x : DailyRecord) (h : history) :
  length (put x h) =
  if in_dec eq_dec (date x) (dates h) then length h else S (length h).
Proof.
  pose proof (put_dates x h) as H. apply (f_equal (@length _)) in H.
  unfold dates in *. rewrite length_map in H. rewrite H.
  destruct (in_dec eq_dec (date x) (map date h)).
  - now rewrite length_map.
  - rewrite length_app, length_map. simpl. lia.
Qed.

Lemma put_wf (x : DailyRecord) (h : history) : wf h -> wf (put x h).
Proof.
  unfold wf. rewrite put_dates.
  destruct (in_dec eq_dec (date x) (dates h)) as [I|N]; auto.
  intros H. apply NoDup_rev in H. rewrite <- (rev_involutive (_ ++ _)).
  apply NoDup_rev. rewrite rev_app_distr. simpl. constructor; auto.
  now rewrite <- in_rev.
Qed.

Lemma put_In (x y : DailyRecord) (h : history) :
  In y (put x h) -> y = x \/ In y h.
Proof.
  unfold put. destruct (index_of (date x) h) as [i|].
  - apply set_item_In.
  - rewrite in_app_iff. simpl. intuition auto.
Qed.

Lemma put_keeps (x y : DailyRecord) (h : history) :
  In y h -> date y <> date x -> In y (put x h).
Proof.
  unfold put. destruct (index_of (date x) h) as [i|] eqn:E; intros H N.
  - eapply set_item_keeps; eauto.
  - apply in_app_iff. now left.
Qed.

Lemma put_has (x : DailyRecord) (h : history) : In x (put x h).
Proof.
  unfold put. destruct (index_of (date x) h) as [i|] eqn:E.
  - eapply set_item_has; eauto.
  - apply in_app_iff. right. now left.
Qed.

(** *** The sort *)

Lemma insert_perm (x : DailyRecord) (l : history) :
  Permutation (insert x l) (x :: l).
Proof.
  induction l as [|y l IH]; simpl; auto.
  destruct (ltb (date y) (date x)); auto.
  rewrite IH. apply perm_swap.
Qed.

Lemma sorted_perm (l : history) : Permutation (sorted l) l.
Proof.
  induction l as [|x l IH]; simpl; auto.
  rewrite insert_perm. now constructor.
Qed.

Lemma insert_sorted (x : DailyRecord) (l : history) :
  StronglySorted date_le l -> StronglySorted date_le (insert x l).
Proof.
  induction 1 as [|y l S IH F]; simpl.
  - repeat constructor.
  - destruct (ltb (date y) (date x)) eqn:E.
    + constructor; auto.
      eapply Permutation_Forall; [symmetry; apply insert_perm|].
      constructor; auto. apply ltb_lt in E. now apply lt_le.
    + apply ltb_ge in E. constructor; [now constructor|].
      constructor; auto.
      eapply Forall_impl; [|exact F]. intros z Hz.
      unfold date_le in *. eapply le_trans; eauto.
Qed.

Lemma sorted_sorted (l : history) : StronglySorted date_le (sorted l).
Proof.
  induction l as [|x l IH]; simpl; [constructor | now apply insert_sorted].
Qed.

Lemma sorted_length (l : history) : length (sorted l) = length l.
Proof. apply Permutation_length, sorted_perm. Qed.

Lemma wf_perm (l l' : history) : Permutation l l' -> wf l -> wf l'.
Proof.
  unfold wf, dates. intros P. apply Permutation_NoDup. now apply Permutation_map.
Qed.

(** The sort is stable: rows of one date keep their order. *)
Lemma insert_stable (d : pystr) (x : DailyRecord) (l : history) :
  rows_for d (insert x l) = rows_for d (x :: l).
Proof.
  unfold rows_for. induction l as [|y l IH]; simpl; auto.
  destruct (ltb (date y) (date x)) eqn:E; simpl; auto.
  rewrite IH. simpl.
  destruct (eqb (date x) d) eqn:Ex, (eqb (date y) d) eqn:Ey; auto.
  apply eqb_eq in Ex, Ey. apply ltb_lt in E. rewrite Ex, Ey in E.
  now apply lt_irrefl in E.
Qed.

Lemma sorted_stable (d : pystr) (l : history) :
  rows_for d (sorted l) = rows_for d l.
Proof.
  induction l as [|x l IH]; simpl; auto.
  rewrite insert_stable. unfold rows_for in *. simpl. now rewrite IH.
Qed.

(** With one row per date, ascending order is strict. *)
Lemma sorted_strict (l : history) :
  wf l -> StronglySorted date_le l -> StronglySorted date_lt l.
Proof.
  unfold wf. induction 2 as [|x l S IH F]; [constructor|].
  simpl in H. inversion H as [|? ? N D]; subst.
  constructor; auto.
  rewrite Forall_forall in *. intros y I.
  apply le_neq_lt; [now apply F|].
  intros E. apply N. rewrite E. now apply in_map.
Qed.

(** *** The trim *)

Lemma last_n_split (n : nat) (l : history) :
  l = firstn (length l - n) l ++ last_n n l.
Proof. unfold last_n. now rewrite firstn_skipn. Qed.

Lemma last_n_length (n : nat) (l : history) :
  length (last_n n l) = Nat.min n (length l).
Proof. unfold last_n. rewrite length_skipn. lia. Qed.

Lemma last_n_all (n : nat) (l : history) :
  (length l <= n)%nat -> last_n n l = l.
Proof.
  unfold last_n. intros H. replace (length l - n)%nat with 0%nat by lia.
  reflexivity.
Qed.

Lemma last_n_In (n : nat) (x : DailyRecord) (l : history) :
  In x (last_n n l) -> In x l.
Proof.
  intros H. rewrite (last_n_split n l). apply in_app_iff. now right.
Qed.

Lemma wf_app_r (l1 l2 : history) : wf (l1 ++ l2) -> wf l2.
Proof.
  unfold wf, dates. rewrite map_app. induction (map date l1) as [|d m IH]; simpl; auto.
  intros H. inversion H; auto.
Qed.

Lemma last_n_wf (n : nat) (l : history) : wf l -> wf (last_n n l).
Proof.
  intros H. rewrite (last_n_split n l) in H. now apply wf_app_r in H.
Qed.

Lemma StronglySorted_app_inv (R : DailyRecord -> DailyRecord -> Prop)
    (l1 l2 : history) :
  StronglySorted R (l1 ++ l2) ->
  StronglySorted R l1 /\ StronglySorted R l2 /\
  (forall a b, In a l1 -> In b l2 -> R a b).
Proof.
  induction l1 as [|x l1 IH]; simpl; intros H.
  - repeat split; auto; [constructor | contradiction].
  - inversion H as [|? ? S F]; subst. apply IH in S as (S1 & S2 & C).
    rewrite Forall_forall in F. repeat split; auto.
    + constructor; auto. apply Forall_forall. intros y I. apply F.
      apply in_app_iff. now left.
    + intros a b [<- | I] Ib; [|now apply C]. apply F. apply in_app_iff.
      now right.
Qed.

(** *** [_upsert_today] as update, sort and trim *)

Lemma upsert_unfold (d : pystr) (r k m : Z) (h : history) :
  _upsert_today d r k m h = last_n 7 (sorted (put (Row d r k m) h)).
Proof. reflexivity. Qed.

Lemma upsert_wf (d : pystr) (r k m : Z) (h : history) :
  wf h -> wf (_upsert_today d r k m h).
Proof.
  intros H. rewrite upsert_unfold. apply last_n_wf.
  eapply wf_perm; [symmetry; apply sorted_perm|]. now apply put_wf.
Qed.

Lemma upsert_length (d : pystr) (r k m : Z) (h : history) :
  length (_upsert_today d r k m h) =
  Nat.min 7 (length (put (Row d r k m) h)).
Proof. rewrite upsert_unfold, last_n_length, sorted_length. reflexivity. Qed.

Lemma upsert_In (d : pystr) (r k m : Z) (h : history) (y : DailyRecord) :
  In y (_upsert_today d r k m h) -> y = Row d r k m \/ In y h.
Proof.
  rewrite upsert_unfold. intros H. apply last_n_In in H.
  apply (Permutation_in _ (sorted_perm _)) in H. now apply put_In in H.
Qed.

(** *** Sequences of upserts *)

Lemma run_snoc (calls : list call) (c : call) (h : history) :
  run (calls ++ [c]) h = upsert_call (run calls h) c.
Proof. unfold run. now rewrite fold_left_app. Qed.

(** What a store reached from the empty one keeps of the dates seen. *)
Definition tracks (seen : list pystr) (h : history) : Prop :=
  wf h /\ incl (dates h) seen /\ (length h <= 7)%nat /\
  (length h = 7%nat \/ incl seen (dates h)).

Lemma tracks_step (seen : list pystr) (h : history) (d : pystr) (r k m : Z) :
  tracks seen h -> tracks (seen ++ [d]) (_upsert_today d r k m h).
Proof.
  intros (W & I & L & C). split; [|split; [|split]].
  - now apply upsert_wf.
  - intros e He. apply in_map_iff in He as (y & <- & Hy).
    apply upsert_In in Hy as [-> | Hy]; apply in_app_iff.
    + right. now left.
    + left. apply I. now apply in_map.
  - rewrite upsert_length. lia.
  -     pose proof (upsert_length d r k m h) as UL.
    destruct (Nat.le_gt_cases 7 (length (put (Row d r k m) h))) as [G | G];
      [left; lia | right]. clear UL.
    rewrite upsert_unfold, last_n_all by (rewrite sorted_length; lia).
    assert (S : forall e, In e (dates (put (Row d r k m) h)) ->
                          In e (dates (sorted (put (Row d r k m) h)))).
    { intros e. apply Permutation_in. apply Permutation_map. symmetry.
      apply sorted_perm. }
    intros e He. apply S. apply in_app_iff in He as [He | [<- | []]].
    + assert (Lh : (length h < 7)%nat).
      { rewrite put_length in G. destruct (in_dec _ _ _); simpl in *; lia. }
      destruct C as [C | C]; [lia|]. apply C in He.
      rewrite put_dates. destruct (in_dec _ _ _); auto.
      apply in_app_iff. now left.
    + change d with (date (Row d r k m)) at 1. apply in_map, put_has.
Qed.

Lemma run_tracks (calls : list call) :
  tracks (map call_date calls) (run calls []).
Proof.
  induction calls as [|c calls IH] using rev_ind.
  - split; [constructor | split; [intros ? [] | split; [simpl; lia|]]].
    right. intros ? [].
  - rewrite run_snoc, map_app. simpl.
    destruct c as (d & (r & k) & m). simpl. now apply tracks_step.
Qed.

Lemma tracks_length (seen : list pystr) (h : history) :
  tracks seen h -> length h = Nat.min (length (nodup eq_dec seen)) 7.
Proof.
  intros (W & I & L & C). unfold wf in W.
  assert (E : length h = length (dates h)) by (unfold dates; now rewrite length_map).
  destruct C as [C | C].
  - assert (length (dates h) <= length (nodup eq_dec seen))%nat; [|lia].
    apply NoDup_incl_length; auto.
    intros e He. apply nodup_In. now apply I.
  - assert (length (dates h) = length (nodup eq_dec seen)); [|lia].
    apply Permutation_length, NoDup_Permutation; auto.
    + apply NoDup_nodup.
    + intros e. rewrite nodup_In. split; auto.
Qed.

(** C1: for any sequence of upserts from the empty history in which the
    clock shows N distinct dates, the store ends with exactly min(N, 7)
    rows, and after every call of the sequence no two rows share a date.
    (The statement also covers the empty sequence, N = 0.) *)
Theorem upsert_sequence_size (calls : list call) :
  length (run calls []) = Nat.min (distinct_dates calls) 7 /\
  forall n : nat, NoDup (dates (run (firstn n calls) [])).
Proof.
  split.
  - apply tracks_length, run_tracks.
  - intros n. apply (run_tracks (firstn n calls)).
Qed.

(** *** Where today's row ends up *)

Lemma filter_none (f : DailyRecord -> bool) (l : history) :
  (forall y, In y l -> f y = false) -> filter f l = [].
Proof.
  induction l as [|y l IH]; simpl; intros H; auto.
  rewrite (H y) by now left. apply IH. intros z Hz. apply H. now right.
Qed.

Lemma filter_all (f : DailyRecord -> bool) (l : history) :
  (forall y, In y l -> f y = true) -> filter f l = l.
Proof.
  induction l as [|y l IH]; simpl; intros H; auto.
  rewrite (H y) by now left. f_equal. apply IH. intros z Hz. apply H. now right.
Qed.

Lemma filter_perm_length (f : DailyRecord -> bool) (l l' : history) :
  Permutation l l' -> length (filter f l) = length (filter f l').
Proof.
  induction 1 as [| x l l' P IH | x y l | l l' l'' P1 IH1 P2 IH2]; simpl; auto.
  - destruct (f x); simpl; auto.
  - destruct (f x), (f y); simpl; auto.
  - congruence.
Qed.

Lemma later_than_put (x : DailyRecord) (h : history) :
  length (later_than (date x) (put x h)) = length (later_than (date x) h).
Proof.
  assert (X : ltb (date x) (date x) = false) by (apply ltb_ge, le_refl).
  unfold put, later_than. destruct (index_of (date x) h) as [i|] eqn:E.
  - revert i E. induction h as [|y h IH]; simpl; intros i; [discriminate|].
    destruct (eqb (date y) (date x)) eqn:Ey.
    + intros [= <-]. simpl. apply eqb_eq in Ey. rewrite Ey, X. reflexivity.
    + destruct (index_of (date x) h) as [j|]; simpl; [|discriminate].
      intros [= <-]. simpl. destruct (ltb (date x) (date y)); simpl;
        rewrite (IH j); auto.
  - rewrite filter_app. simpl. rewrite X, app_nil_r. reflexivity.
Qed.

(** A strictly ascending list splits around each of its rows. *)
Lemma sorted_split (x : DailyRecord) (s : history) :
  StronglySorted date_lt s -> In x s ->
  exists l1 l2, s = l1 ++ x :: l2 /\
    (forall a, In a l1 -> date_lt a x) /\ (forall b, In b l2 -> date_lt x b).
Proof.
  intros S I. apply in_split in I as (l1 & l2 & ->). exists l1, l2.
  apply StronglySorted_app_inv in S as (_ & S2 & C).
  split; [reflexivity | split].
  - intros a Ha. apply C; [assumption | now left].
  - inversion S2 as [|? ? _ F]; subst. now rewrite Forall_forall in F.
Qed.

(** After one upsert, today's row is in the store exactly when fewer than
    7 rows carried a later date; the rows with a later date, up to 7 of
    them, stay. *)
Lemma upsert_today_row (d : pystr) (r k m : Z) (h : history) :
  wf h ->
  rows_for d (_upsert_today d r k m h) =
    (if (length (later_than d h) <? 7)%nat then [Row d r k m] else []) /\
  length (later_than d (_upsert_today d r k m h)) =
    Nat.min (length (later_than d h)) 7.
Proof.
  intros W. rewrite upsert_unfold. set (x := Row d r k m).
  set (s := sorted (put x h)).
  assert (P : Permutation s (put x h)) by apply sorted_perm.
  assert (Ws : wf s) by (eapply wf_perm; [symmetry; exact P | now apply put_wf]).
  assert (Ss : StronglySorted date_lt s) by (apply sorted_strict; auto; apply sorted_sorted).
  assert (I : In x s) by (eapply Permutation_in; [symmetry; exact P | apply put_has]).
  assert (Lt : length (later_than d h) = length (later_than d s)).
  { unfold later_than at 2. rewrite (filter_perm_length _ _ _ P).
    symmetry. apply (later_than_put x h). }
  destruct (sorted_split x s Ss I) as (l1 & l2 & E & B1 & B2).
  assert (F1 : later_than d l1 = []).
  { apply filter_none. intros y Hy. apply ltb_ge, lt_le. exact (B1 y Hy). }
  assert (F2 : later_than d l2 = l2).
  { apply filter_all. intros y Hy. apply ltb_lt. exact (B2 y Hy). }
  assert (X : ltb d d = false) by (apply ltb_ge, le_refl).
  assert (L2 : length (later_than d h) = length l2).
  { rewrite Lt, E. unfold later_than in *. rewrite filter_app. simpl.
    change (date x) with d. rewrite X, F1, F2. reflexivity. }
  assert (R1 : forall n, rows_for d (skipn n l1) = []).
  { intros n. apply filter_none. intros y Hy. apply eqb_neq.
    apply lt_neq. apply B1. rewrite <- (firstn_skipn n l1).
    apply in_app_iff. now right. }
  assert (R2 : forall n, rows_for d (skipn n l2) = []).
  { intros n. apply filter_none. intros y Hy. apply eqb_neq.
    intros Ey. apply (lt_neq _ _ (B2 y ltac:(rewrite <- (firstn_skipn n l2);
      apply in_app_iff; now right))). now rewrite Ey. }
  assert (T1 : forall n, later_than d (skipn n l1) = []).
  { intros n. apply filter_none. intros y Hy. apply ltb_ge, lt_le, B1.
    rewrite <- (firstn_skipn n l1). apply in_app_iff. now right. }
  assert (T2 : forall n, later_than d (skipn n l2) = skipn n l2).
  { intros n. apply filter_all. intros y Hy. apply ltb_lt, B2.
    rewrite <- (firstn_skipn n l2). apply in_app_iff. now right. }
  unfold last_n. rewrite L2, E, length_app. simpl length.
  rewrite skipn_app.
  destruct (Nat.ltb_spec (length l2) 7) as [G | G].
  - replace (length l1 + S (length l2) - 7 - length l1)%nat with 0%nat by lia.
    pose proof (R2 0%nat) as R0. simpl skipn in *.
    unfold rows_for, later_than in *.
    rewrite !filter_app. simpl. change (date x) with d.
    rewrite eqb_refl, X, R1, T1, F2, R0. simpl.
    split; [reflexivity | lia].
  - rewrite skipn_all2 by lia.
    replace (length l1 + S (length l2) - 7 - length l1)%nat
      with (S (length l2 - 7)) by lia.
    simpl. rewrite R2, T2, length_skipn. split; [reflexivity | lia].
Qed.

(** C2: after every upsert the store holds, in strictly ascending date
    order, the latest rows of the updated list: min(7, size) of them, each
    row left out being older than every row kept; a store that held 7 rows
    (as the seeded store does) holds exactly 7 afterwards. *)
Theorem upsert_retains_latest_7 (d : pystr) (r k m : Z) (h : history)
    (W : wf h) :
  let u := put (Row d r k m) h in
  let h' := _upsert_today d r k m h in
  StronglySorted date_lt h' /\
  length h' = Nat.min 7 (length u) /\
  (exists older, Permutation u (older ++ h') /\
     forall a b, In a older -> In b h' -> date_lt a b) /\
  ((7 <= length h)%nat -> length h' = 7%nat).
Proof.
  intros u h'. subst h'. rewrite upsert_unfold. fold u.
  assert (P : Permutation (sorted u) u) by apply sorted_perm.
  assert (S : StronglySorted date_lt (sorted u)).
  { apply sorted_strict; [|apply sorted_sorted].
    eapply wf_perm; [symmetry; exact P | now apply put_wf]. }
  rewrite (last_n_split 7 (sorted u)) in S.
  apply StronglySorted_app_inv in S as (_ & S2 & C).
  split; [exact S2 | split; [|split]].
  - now rewrite last_n_length, sorted_length.
  - exists (firstn (length (sorted u) - 7) (sorted u)). split; [|exact C].
    rewrite <- last_n_split. now symmetry.
  - intros L. rewrite last_n_length, sorted_length. subst u.
    rewrite put_length. destruct (in_dec _ _ _); lia.
Qed.

Lemma full_store_wf : wf full_store.
Proof. apply (run_tracks week). Qed.

Lemma upsert_retains_latest_7_witness :
  wf full_store /\
  length (_upsert_today (lit "2024-01-09") 60 3 8 full_store) = 7%nat /\
  StronglySorted date_lt (_upsert_today (lit "2024-01-09") 60 3 8 full_store).
Proof.
  split; [exact full_store_wf|].
  destruct (upsert_retains_latest_7 (lit "2024-01-09") 60 3 8 full_store
              full_store_wf) as (S & _ & _ & L).
  split; [apply L; vm_compute; reflexivity | exact S].
Defined.

(** C3 (amended): two upserts with the same current date leave at most
    one row for that date, and if there is one its rate, completed count
    and mood are those of the second call; the row is there exactly when
    fewer than 7 rows of the store carry a later date, as is the case when
    no row of the store is dated after the current date. *)
Theorem upsert_twice_replaces (d : pystr) (r1 k1 m1 r2 k2 m2 : Z)
    (h : history) (W : wf h) :
  let h2 := _upsert_today d r2 k2 m2 (_upsert_today d r1 k1 m1 h) in
  ((length (later_than d h) < 7)%nat -> rows_for d h2 = [Row d r2 k2 m2]) /\
  ((7 <= length (later_than d h))%nat -> rows_for d h2 = []) /\
  ((forall y, In y h -> le (date y) d) -> rows_for d h2 = [Row d r2 k2 m2]).
Proof.
  intros h2. subst h2.
  destruct (upsert_today_row d r1 k1 m1 h W) as (_ & L1).
  destruct (upsert_today_row d r2 k2 m2 _ (upsert_wf d r1 k1 m1 h W)) as (R2 & _).
  rewrite R2, L1.
  assert (A : (length (later_than d h) < 7)%nat ->
              (if (Nat.min (length (later_than d h)) 7 <? 7)%nat
               then [Row d r2 k2 m2] else []) = [Row d r2 k2 m2]).
  { intros G.
    destruct (Nat.ltb_spec (Nat.min (length (later_than d h)) 7) 7);
      [reflexivity | lia]. }
  split; [exact A | split].
  - intros G.
    destruct (Nat.ltb_spec (Nat.min (length (later_than d h)) 7) 7);
      [lia | reflexivity].
  - intros G. apply A.
    unfold later_than. rewrite filter_none; [simpl; lia|].
    intros y Hy. apply ltb_ge. now apply G.
Qed.

Lemma upsert_twice_replaces_witness :
  wf full_store /\
  rows_for (lit "2024-01-08")
    (_upsert_today (lit "2024-01-08") 60 3 8
       (_upsert_today (lit "2024-01-08") 40 2 7 full_store))
  = [Row (lit "2024-01-08") 60 3 8].
Proof.
  split; [exact full_store_wf|].
  destruct (upsert_twice_replaces (lit "2024-01-08") 40 2 7 60 3 8 full_store
              full_store_wf) as (H & _).
  apply H. apply Nat.ltb_lt. vm_compute. reflexivity.
Defined.

(** C3, as first stated, fails: the store holds the seven days from
    2024-01-02 to 2024-01-08, reached from the empty history by seven
    upserts; two upserts dated 2024-01-01 leave no row for that date,
    where the statement wants exactly one, with the second call's
    values. *)
Lemma upsert_twice_old_date_trimmed :
  wf full_store /\
  rows_for (lit "2024-01-01")
    (_upsert_today (lit "2024-01-01") 60 3 8
       (_upsert_today (lit "2024-01-01") 40 2 7 full_store)) = [] /\
  rows_for (lit "2024-01-01")
    (_upsert_today (lit "2024-01-01") 60 3 8
       (_upsert_today (lit "2024-01-01") 40 2 7 full_store))
  <> [Row (lit "2024-01-01") 60 3 8].
Proof.
  split; [exact full_store_wf|].
  split; [vm_compute; reflexivity | vm_compute; discriminate].
Qed.

(** C9: a row of the new store whose date is not the current date is a
    row of the old store, with the same rate, completed count and mood;
    a row of the old store whose date is not the current date is either
    still there or was cut by the trim, the list then having more than 7
    rows and every row kept being at least as late. *)
Theorem upsert_frame (d : pystr) (r k m : Z) (h : history) (y : DailyRecord)
    (N : date y <> d) :
  let h' := _upsert_today d r k m h in
  (In y h' -> In y h) /\
  (In y h ->
     In y h' \/
     ((7 < length (put (Row d r k m) h))%nat /\
      forall z, In z h' -> date_le y z)).
Proof.
  intros h'. subst h'. split.
  - intros H. apply upsert_In in H as [-> | H]; [|assumption].
    simpl in N. contradiction.
  - intros H. rewrite upsert_unfold. set (u := put (Row d r k m) h).
    assert (I : In y (sorted u)).
    { eapply Permutation_in; [symmetry; apply sorted_perm|].
      now apply put_keeps. }
    pose proof (sorted_sorted u) as S.
    rewrite (last_n_split 7 (sorted u)) in I, S.
    apply StronglySorted_app_inv in S as (_ & _ & C).
    apply in_app_iff in I as [I | I]; [right | now left].
    split; [|intros z Hz; now apply C].
    destruct (Nat.le_gt_cases (length (sorted u)) 7) as [G | G].
    + replace (length (sorted u) - 7)%nat with 0%nat in I by lia. destruct I.
    + now rewrite sorted_length in G.
Qed.

Lemma upsert_frame_witness :
  date (Row (lit "2024-01-05") 20 1 4) <> lit "2024-01-09" /\
  (In (Row (lit "2024-01-05") 20 1 4)
      (_upsert_today (lit "2024-01-09") 60 3 8 full_store) ->
   In (Row (lit "2024-01-05") 20 1 4) full_store).
Proof.
  assert (N : date (Row (lit "2024-01-05") 20 1 4) <> lit "2024-01-09")
    by (vm_compute; discriminate).
  split; [exact N|].
  exact (proj1 (upsert_frame (lit "2024-01-09") 60 3 8 full_store
                  (Row (lit "2024-01-05") 20 1 4) N)).
Defined.

(** *** The seeded store *)

(** When the calendar gives different days different texts, the first
    render of a session seeds 7 rows on 7 dates; every later store then
    holds exactly 7 rows. *)
Lemma init_history_seeded (day_str : Z -> pystr) (today : Z) :
  (forall a b, day_str a = day_str b -> a = b) ->
  exists h, _init_history_if_needed day_str today None = Some h /\
            length h = 7%nat /\ wf h.
Proof.
  intros Inj. eexists. split; [|split].
  - unfold _init_history_if_needed, sample_row. simpl map.
    repeat match goal with
           | |- context [PyNum.round ?x] =>
               let v := eval vm_compute in (PyNum.round x) in
               change (PyNum.round x) with v
           end.
    cbn [collect option_map app nth Nat.sub preset_rates preset_moods].
    reflexivity.
  - reflexivity.
  - unfold wf. simpl.
    repeat constructor; simpl; intros H;
      repeat match goal with
             | H : _ \/ _ |- _ => destruct H as [H | H]
             | H : day_str _ = day_str _ |- _ => apply Inj in H; lia
             | H : False |- _ => destruct H
             end.
Qed.

Lemma upsert_keeps_7 (d : pystr) (r k m : Z) (h : history) :
  wf h -> length h = 7%nat -> 
  wf (_upsert_today d r k m h) /\ length (_upsert_today d r k m h) = 7%nat.
Proof.
  intros W L. split; [now apply upsert_wf|].
  rewrite upsert_length, put_length. destruct (in_dec _ _ _); lia.
Qed.

(** Every store of a session holds exactly 7 rows, one per date. *)
Lemma session_store_7 (day_str : Z -> pystr) (h : history) :
  (forall a b, day_str a = day_str b -> a = b) ->
  session_store day_str h -> wf h /\ length h = 7%nat.
Proof.
  intros Inj. induction 1 as [today h E | d r k m h _ (W & L)].
  - destruct (init_history_seeded day_str today Inj) as (h' & E' & L & W).
    rewrite E in E'. injection E' as <-. auto.
  - now apply upsert_keeps_7.
Qed.

End HistoryFacts.

(* ================================================================== *)
(** ** How upserts compose *)
(* ================================================================== *)

Module HistoryLaws.
Import PyStr PyStrFacts History HistoryFacts HistoryViews.

(** *** Sorting what is sorted *)

Lemma insert_min (x : DailyRecord) (l : history) :
  (forall y, In y l -> date_le x y) -> insert x l = x :: l.
Proof.
  destruct l as [|y l]; simpl; intros H; [reflexivity|].
  assert (E : ltb (date y) (date x) = false).
  { apply ltb_ge. apply H. now left. }
  now rewrite E.
Qed.

Lemma sorted_id (l : history) : StronglySorted date_le l -> sorted l = l.
Proof.
  induction 1 as [|x l S IH F]; simpl; [reflexivity|].
  rewrite IH. apply insert_min. now rewrite Forall_forall in F.
Qed.

Lemma sorted_snoc_min (x : DailyRecord) (l : history) :
  StronglySorted date_le l -> (forall y, In y l -> date_lt x y) ->
  sorted (l ++ [x]) = x :: l.
Proof.
  induction 1 as [|y l S IH F]; simpl; intros H; [reflexivity|].
  rewrite IH by (intros z Hz; apply H; now right).
  simpl. assert (E : ltb (date x) (date y) = true).
  { apply ltb_lt. apply H. now left. }
  rewrite E. f_equal. apply insert_min. now rewrite Forall_forall in F.
Qed.

Lemma sorted_snoc_max (x : DailyRecord) (l : history) :
  StronglySorted date_le l -> (forall y, In y l -> date_le y x) ->
  sorted (l ++ [x]) = l ++ [x].
Proof.
  intros S H. apply sorted_id. induction S as [|y l S IH F]; simpl.
  - repeat constructor.
  - constructor.
    + apply IH. intros z Hz. apply H. now right.
    + apply Forall_app. split; [exact F|]. constructor; [|constructor].
      apply H. now left.
Qed.

Lemma upsert_sorted (d : pystr) (r k m : Z) (h : history) :
  StronglySorted date_le (_upsert_today d r k m h).
Proof.
  rewrite upsert_unfold.
  pose proof (sorted_sorted (put (Row d r k m) h)) as S.
  rewrite (last_n_split 7) in S.
  now apply StronglySorted_app_inv in S as (_ & S & _).
Qed.

Lemma upsert_at_most_7 (d : pystr) (r k m : Z) (h : history) :
  (length (_upsert_today d r k m h) <= 7)%nat.
Proof. rewrite upsert_length. lia. Qed.

(** *** Replacing rows in place *)

Lemma replace_row_date (x y : DailyRecord) : date (replace_row x y) = date y.
Proof.
  unfold replace_row. destruct (eqb (date y) (date x)) eqn:E; auto.
  apply eqb_eq in E. now symmetry.
Qed.

Lemma replace_row_absent (x : DailyRecord) (l : history) :
  ~ In (date x) (dates l) -> map (replace_row x) l = l.
Proof.
  induction l as [|y l IH]; simpl; intros H; [reflexivity|].
  rewrite IH by tauto. unfold replace_row.
  destruct (eqb (date y) (date x)) eqn:E; [|reflexivity].
  apply eqb_eq in E. exfalso. apply H. now left.
Qed.

Lemma put_present (x : DailyRecord) (h : history) :
  wf h -> In (date x) (dates h) -> put x h = map (replace_row x) h.
Proof.
  unfold put, wf. induction h as [|y h IH]; simpl; intros W I; [contradiction|].
  inversion W as [|? ? N W']; subst.
  unfold replace_row at 1.
  destruct (eqb (date y) (date x)) eqn:E.
  - apply eqb_eq in E. rewrite E in N.
    now rewrite (replace_row_absent x h N).
  - apply eqb_neq in E. destruct I as [I | I]; [contradiction|].
    specialize (IH W' I).
    destruct (index_of (date x) h) as [i|] eqn:Ei.
    + simpl. now rewrite IH.
    + apply index_of_None in Ei. contradiction.
Qed.

Lemma put_absent (x : DailyRecord) (h : history) :
  ~ In (date x) (dates h) -> put x h = h ++ [x].
Proof.
  intros N. unfold put. apply index_of_None in N. now rewrite N.
Qed.

Lemma insert_map (f : DailyRecord -> DailyRecord) (x : DailyRecord)
    (l : history) :
  (forall y, date (f y) = date y) ->
  insert (f x) (map f l) = map f (insert x l).
Proof.
  intros D. induction l as [|y l IH]; simpl; [reflexivity|].
  rewrite !D. destruct (ltb (date y) (date x)); simpl; [now rewrite IH | reflexivity].
Qed.

Lemma sorted_map (f : DailyRecord -> DailyRecord) (l : history) :
  (forall y, date (f y) = date y) -> sorted (map f l) = map f (sorted l).
Proof.
  intros D. induction l as [|x l IH]; simpl; [reflexivity|].
  rewrite IH. now apply insert_map.
Qed.

Lemma last_n_map (f : DailyRecord -> DailyRecord) (n : nat) (l : history) :
  last_n n (map f l) = map f (last_n n l).
Proof. unfold last_n. now rewrite length_map, skipn_map. Qed.

(** Two rows of one date put into the same store give stores that differ
    in that row only. *)
Lemma upsert_replace_row (d : pystr) (r1 k1 m1 r2 k2 m2 : Z) (h : history) :
  wf h ->
  _upsert_today d r2 k2 m2 h =
  map (replace_row (Row d r2 k2 m2)) (_upsert_today d r1 k1 m1 h).
Proof.
  intros W. rewrite !upsert_unfold.
  set (x1 := Row d r1 k1 m1). set (x2 := Row d r2 k2 m2).
  rewrite <- last_n_map, <- sorted_map by apply replace_row_date.
  f_equal. f_equal.
  destruct (in_dec eq_dec d (dates h)) as [I | N].
  - rewrite (put_present x1), (put_present x2) by assumption.
    rewrite map_map. apply map_ext. intros y. unfold replace_row. simpl.
    destruct (eqb (date y) d) eqn:E; simpl; [now rewrite eqb_refl | now rewrite E].
  - rewrite (put_absent x1), (put_absent x2) by assumption.
    rewrite map_app. simpl.
    rewrite (replace_row_absent x2 h N).
    unfold replace_row. simpl. now rewrite eqb_refl.
Qed.

(** X1: on a store with one row per date, an upsert after an upsert of
    the same date gives the store the second upsert alone gives: the last
    write wins, and repeating a render pass changes nothing. *)
Theorem upsert_last_write_wins (d : pystr) (r1 k1 m1 r2 k2 m2 : Z)
    (h : history) (W : wf h) :
  _upsert_today d r2 k2 m2 (_upsert_today d r1 k1 m1 h) =
  _upsert_today d r2 k2 m2 h.
Proof.
  set (h1 := _upsert_today d r1 k1 m1 h).
  set (x2 := Row d r2 k2 m2).
  assert (W1 : wf h1) by now apply upsert_wf.
  assert (S1 : StronglySorted date_le h1) by apply upsert_sorted.
  assert (L1 : (length h1 <= 7)%nat) by apply upsert_at_most_7.
  rewrite (upsert_replace_row d r1 k1 m1 r2 k2 m2 h W). fold h1 x2.
  rewrite upsert_unfold. fold x2.
  destruct (in_dec eq_dec d (dates h1)) as [I | N].
  - rewrite (put_present x2 h1 W1 I).
    rewrite sorted_map by apply replace_row_date.
    rewrite (sorted_id h1 S1). apply last_n_all. now rewrite length_map.
  - rewrite (put_absent x2 h1 N), (replace_row_absent x2 h1 N).
    destruct (upsert_today_row d r1 k1 m1 h W) as (R & T). fold h1 in R, T.
    assert (R0 : rows_for d h1 = []).
    { apply filter_none. intros y Hy. apply eqb_neq. intros E. apply N.
      rewrite <- E. now apply in_map. }
    rewrite R0 in R.
    destruct (Nat.ltb_spec (length (later_than d h)) 7) as [G | G];
      [discriminate R|].
    unfold later_than in T, G.
    pose proof (filter_length_le (fun y => ltb d (date y)) h1) as Fl.
    assert (L7 : length h1 = 7%nat) by lia.
    assert (A : forallb (fun y => ltb d (date y)) h1 = true).
    { apply filter_length_forallb. lia. }
    rewrite forallb_forall in A.
    rewrite sorted_snoc_min; auto.
    + unfold last_n. simpl length. rewrite L7. reflexivity.
    + intros y Hy. apply ltb_lt. now apply A.
Qed.

(** X2: on an ascending store whose rows are all dated before the
    current date, an upsert appends today's row; a store of 7 rows loses
    its first, oldest row and every other row moves up. *)
Theorem upsert_new_day (d : pystr) (r k m : Z) (h : history)
    (S : StronglySorted date_le h)
    (Old : forall y, In y h -> lt (date y) d) :
  ((length h < 7)%nat -> _upsert_today d r k m h = h ++ [Row d r k m]) /\
  (length h = 7%nat -> _upsert_today d r k m h = tl h ++ [Row d r k m]).
Proof.
  assert (N : ~ In d (dates h)).
  { intros I. apply in_map_iff in I as (y & E & Hy).
    apply Old in Hy. rewrite E in Hy. exact (lt_irrefl _ Hy). }
  rewrite upsert_unfold, (put_absent (Row d r k m) h N).
  rewrite sorted_snoc_max; auto.
  - unfold last_n. rewrite length_app. simpl length. split; intros L.
    + replace (length h + 1 - 7)%nat with 0%nat by lia. reflexivity.
    + rewrite L. destruct h; [discriminate L | reflexivity].
  - intros y Hy. apply lt_le. now apply Old.
Qed.

(** X3: on an ascending store of at most 7 rows, one per date, an upsert
    for a date the store holds rewrites that row where it stands: every
    other row, the order and the size stay. *)
Theorem upsert_in_place (d : pystr) (r k m : Z) (h : history)
    (W : wf h) (S : StronglySorted date_le h) (L : (length h <= 7)%nat)
    (I : In d (dates h)) :
  _upsert_today d r k m h = map (replace_row (Row d r k m)) h.
Proof.
  rewrite upsert_unfold, (put_present (Row d r k m) h W I).
  rewrite sorted_map by apply replace_row_date.
  rewrite (sorted_id h S). apply last_n_all. now rewrite length_map.
Qed.

(** X4: when no row of the store is dated after the current date, the
    upsert leaves today's row as the last row of the store. *)
Theorem upsert_today_is_last (d : pystr) (r k m : Z) (h : history)
    (W : wf h) (Past : forall y, In y h -> le (date y) d) :
  exists l, _upsert_today d r k m h = l ++ [Row d r k m].
Proof.
  set (x := Row d r k m). set (h' := _upsert_today d r k m h).
  assert (I : In x h').
  { destruct (upsert_today_row d r k m h W) as (R & _). fold h' in R.
    assert (Z0 : later_than d h = []).
    { apply filter_none. intros y Hy. apply ltb_ge. now apply Past. }
    rewrite Z0 in R. simpl in R.
    assert (Ix : In x (rows_for d h')) by (rewrite R; now left).
    apply filter_In in Ix. tauto. }
  assert (S : StronglySorted date_lt h').
  { apply sorted_strict; [now apply upsert_wf | apply upsert_sorted]. }
  destruct (sorted_split x h' S I) as (l1 & l2 & E & _ & B2).
  exists l1. rewrite E. destruct l2 as [|b l2]; [reflexivity|].
  exfalso. specialize (B2 b (or_introl eq_refl)).
  assert (Ib : In b h').
  { rewrite E. apply in_app_iff. right. right. now left. }
  apply upsert_In in Ib as [-> | Ib].
  - exact (lt_irrefl _ B2).
  - apply Past in Ib. exact (lt_not_le _ _ B2 Ib).
Qed.

(** *** The sample store *)

Lemma full_store_rows :
  full_store =
  [Row (lit "2024-01-02") 40 2 5; Row (lit "2024-01-03") 60 3 6;
   Row (lit "2024-01-04") 80 4 7; Row (lit "2024-01-05") 20 1 4;
   Row (lit "2024-01-06") 100 5 8; Row (lit "2024-01-07") 60 3 6;
   Row (lit "2024-01-08") 0 0 5].
Proof. vm_compute. reflexivity. Qed.

Lemma full_store_sorted : StronglySorted date_le full_store.
Proof.
  change full_store
    with (_upsert_today (lit "2024-01-08") 0 0 5 (run (firstn 6 week) [])).
  apply upsert_sorted.
Qed.

Lemma upsert_last_write_wins_witness :
  wf full_store /\
  _upsert_today (lit "2024-01-08") 60 3 8
    (_upsert_today (lit "2024-01-08") 40 2 7 full_store) =
  _upsert_today (lit "2024-01-08") 60 3 8 full_store.
Proof.
  split; [exact full_store_wf|].
  exact (upsert_last_write_wins (lit "2024-01-08") 40 2 7 60 3 8 full_store
           full_store_wf).
Defined.

Lemma upsert_new_day_witness :
  _upsert_today (lit "2024-01-09") 60 3 8 full_store =
  tl full_store ++ [Row (lit "2024-01-09") 60 3 8].
Proof.
  assert (Old : forall y, In y full_store -> lt (date y) (lit "2024-01-09")).
  { intros y Hy. rewrite full_store_rows in Hy. simpl in Hy.
    repeat (destruct Hy as [<- | Hy]; [vm_compute; reflexivity|]).
    contradiction. }
  apply (upsert_new_day (lit "2024-01-09") 60 3 8 full_store
           full_store_sorted Old).
  vm_compute. reflexivity.
Defined.

Lemma upsert_in_place_witness :
  _upsert_today (lit "2024-01-05") 60 3 8 full_store =
  map (replace_row (Row (lit "2024-01-05") 60 3 8)) full_store.
Proof.
  apply (upsert_in_place (lit "2024-01-05") 60 3 8 full_store
           full_store_wf full_store_sorted).
  - vm_compute. repeat constructor.
  - rewrite full_store_rows. simpl. do 3 right. left. reflexivity.
Defined.

Lemma upsert_today_is_last_witness :
  exists l,
    _upsert_today (lit "2024-01-08") 60 3 8 full_store =
    l ++ [Row (lit "2024-01-08") 60 3 8].
Proof.
  apply (upsert_today_is_last (lit "2024-01-08") 60 3 8 full_store
           full_store_wf).
  intros y Hy. rewrite full_store_rows in Hy. simpl in Hy.
  repeat (destruct Hy as [<- | Hy]; [vm_compute; discriminate|]).
  contradiction.
Defined.

(** *** The seeded store and the stores after it *)

(** What the first render of a session stores. *)
Lemma init_history_rows (day_str : Z -> pystr) (today : Z) :
  _init_history_if_needed day_str today None =
  Some [Row (day_str (today - 6)%Z) 40 2 5; Row (day_str (today - 5)%Z) 60 3 6;
        Row (day_str (today - 4)%Z) 80 4 7; Row (day_str (today - 3)%Z) 20 1 4;
        Row (day_str (today - 2)%Z) 100 5 8; Row (day_str (today - 1)%Z) 60 3 6;
        Row (day_str today) 0 0 5].
Proof.
  unfold _init_history_if_needed, sample_row. simpl map.
  repeat match goal with
         | |- context [PyNum.round ?x] =>
             let v := eval vm_compute in (PyNum.round x) in
             change (PyNum.round x) with v
         end.
  reflexivity.
Qed.

Lemma week_ascending_lt (day_str : Z -> pystr) (today a b : Z) :
  week_ascending day_str today ->
  (today - 6 <= a)%Z -> (a < b)%Z -> (b <= today)%Z ->
  lt (day_str a) (day_str b).
Proof.
  intros Asc Ha Hab Hb.
  pose proof (Asc (today - b)%Z (today - a)%Z ltac:(lia) ltac:(lia)) as H.
  replace (today - (today - a))%Z with a in H by lia.
  replace (today - (today - b))%Z with b in H by lia.
  exact H.
Qed.

Lemma seeded_sorted (day_str : Z -> pystr) (today : Z) (h : history) :
  week_ascending day_str today ->
  _init_history_if_needed day_str today None = Some h ->
  StronglySorted date_lt h /\ length h = 7%nat.
Proof.
  intros Asc E. rewrite init_history_rows in E. injection E as <-.
  split; [|reflexivity].
  repeat constructor; unfold date_lt; simpl;
    apply (week_ascending_lt day_str today); auto; lia.
Qed.

Lemma strict_sorted_wf (l : history) : StronglySorted date_lt l -> wf l.
Proof.
  unfold wf. induction 1 as [|x l S IH F]; simpl; constructor; auto.
  intros I. apply in_map_iff in I as (y & E & Hy).
  rewrite Forall_forall in F. apply F in Hy. unfold date_lt in Hy.
  rewrite E in Hy. exact (lt_irrefl _ Hy).
Qed.

Lemma strict_sorted_le (l : history) :
  StronglySorted date_lt l -> StronglySorted date_le l.
Proof.
  induction 1 as [|x l S IH F]; constructor; auto.
  eapply Forall_impl; [|exact F]. intros y Hy. now apply lt_le.
Qed.

(** X5: when the calendar is increasing over the week that ends today,
    the first render seeds a store and, whatever dates and values the
    later render passes upsert, the store always holds exactly 7 rows, on
    7 different dates, in ascending order. *)
Theorem session_keeps_7_sorted (day_str : Z -> pystr) (today : Z)
    (Asc : week_ascending day_str today) :
  exists h0,
    _init_history_if_needed day_str today None = Some h0 /\
    forall calls : list call,
      length (run calls h0) = 7%nat /\
      StronglySorted date_lt (run calls h0).
Proof.
  rewrite init_history_rows. eexists. split; [reflexivity|].
  intros calls.
  destruct (seeded_sorted day_str today _ Asc (init_history_rows day_str today))
    as (S0 & L0).
  induction calls as [|c calls (L & S)] using rev_ind.
  - split; assumption.
  - rewrite run_snoc. destruct c as (d & (r & k) & m). simpl.
    destruct (upsert_keeps_7 d r k m _ (strict_sorted_wf _ S) L) as (W' & L').
    split; [exact L'|]. apply sorted_strict; [exact W' | apply upsert_sorted].
Qed.

(** X6: with such a calendar, the first upsert of a session, dated today,
    rewrites the placeholder row the seeding put last and leaves the six
    demo rows before it as they are. *)
Theorem first_render_rewrites_placeholder (day_str : Z -> pystr) (today : Z)
    (r k m : Z) (Asc : week_ascending day_str today) :
  exists demo,
    length demo = 6%nat /\
    _init_history_if_needed day_str today None
      = Some (demo ++ [Row (day_str today) 0 0 5]) /\
    _upsert_today (day_str today) r k m (demo ++ [Row (day_str today) 0 0 5])
      = demo ++ [Row (day_str today) r k m].
Proof.
  destruct (seeded_sorted day_str today _ Asc (init_history_rows day_str today))
    as (S0 & L0).
  exists [Row (day_str (today - 6)%Z) 40 2 5; Row (day_str (today - 5)%Z) 60 3 6;
          Row (day_str (today - 4)%Z) 80 4 7; Row (day_str (today - 3)%Z) 20 1 4;
          Row (day_str (today - 2)%Z) 100 5 8;
          Row (day_str (today - 1)%Z) 60 3 6].
  split; [reflexivity|]. split.
  - rewrite init_history_rows. reflexivity.
  - cbn [app] in *.
    rewrite upsert_unfold, put_present;
      [| now apply strict_sorted_wf | simpl; do 6 right; now left].
    rewrite sorted_map by apply replace_row_date.
    rewrite sorted_id by now apply strict_sorted_le.
    rewrite last_n_all by (rewrite length_map; simpl; lia).
    cbn [map]. unfold replace_row. cbn [date].
    rewrite eqb_refl.
    repeat match goal with
           | |- context [eqb (day_str ?a) (day_str today)] =>
               let E := fresh "E" in
               assert (E : eqb (day_str a) (day_str today) = false)
                 by (apply eqb_neq, lt_neq,
                     (week_ascending_lt day_str today); auto; lia);
               rewrite E; clear E
           end.
    reflexivity.
Qed.

Lemma january_week : week_ascending january 20.
Proof.
  intros i j Hi Hj.
  assert (Ei : (i = 0 \/ i = 1 \/ i = 2 \/ i = 3 \/ i = 4 \/ i = 5)%Z) by lia.
  assert (Ej : (j = 1 \/ j = 2 \/ j = 3 \/ j = 4 \/ j = 5 \/ j = 6)%Z) by lia.
  destruct Ei as [-> | [-> | [-> | [-> | [-> | ->]]]]];
    destruct Ej as [-> | [-> | [-> | [-> | [-> | ->]]]]];
    try lia; vm_compute; reflexivity.
Qed.

Lemma session_keeps_7_sorted_witness :
  exists h0,
    _init_history_if_needed january 20 None = Some h0 /\
    length (run week h0) = 7%nat.
Proof.
  destruct (session_keeps_7_sorted january 20 january_week) as (h0 & E & H).
  exists h0. split; [exact E | exact (proj1 (H week))].
Defined.

Lemma first_render_rewrites_placeholder_witness :
  exists demo,
    length demo = 6%nat /\
    _upsert_today (january 20) 60 3 8 (demo ++ [Row (january 20) 0 0 5])
      = demo ++ [Row (january 20) 60 3 8].
Proof.
  destruct (first_render_rewrites_placeholder january 20 60 3 8 january_week)
    as (demo & L & _ & U).
  exists demo. split; [exact L | exact U].
Defined.

End HistoryLaws.

(* ================================================================== *)
(** ** Facts about today's metrics *)
(* ================================================================== *)

Module PresentationFacts.
Import Presentation.

Lemma completed_count_range (c1 c2 c3 c4 c5 : bool) :
  (0 <= completed_count [c1; c2; c3; c4; c5] <= 5)%Z.
Proof. destruct c1, c2, c3, c4, c5; vm_compute; split; discriminate. Qed.

Lemma rate_table :
  rate 0 = Some 0%Z /\ rate 1 = Some 20%Z /\ rate 2 = Some 40%Z /\
  rate 3 = Some 60%Z /\ rate 4 = Some 80%Z /\ rate 5 = Some 100%Z.
Proof. repeat split; vm_compute; reflexivity. Qed.

(** C4: for every completed count from 0 to 5, the rate the render
    pass computes in floating point is the exact value of
    completed_count / 5 * 100 rounded to the nearest integer, that is 20
    times the count; 0 gives 0, 3 gives 60 and 5 gives 100. *)
Theorem rate_is_rounded_percentage (n : Z) (H : (0 <= n <= 5)%Z) :
  rate n = Some (rate_exact n) /\
  rate n = Some (20 * n)%Z /\
  rate 0 = Some 0%Z /\ rate 3 = Some 60%Z /\ rate 5 = Some 100%Z.
Proof.
  assert (E : (n = 0 \/ n = 1 \/ n = 2 \/ n = 3 \/ n = 4 \/ n = 5)%Z) by lia.
  destruct E as [-> | [-> | [-> | [-> | [-> | ->]]]]];
    vm_compute; repeat split; reflexivity.
Qed.

Lemma rate_is_rounded_percentage_witness :
  (0 <= 3 <= 5)%Z /\ rate 3 = Some (rate_exact 3) /\ rate 3 = Some 60%Z.
Proof.
  split; [lia|].
  destruct (rate_is_rounded_percentage 3 ltac:(lia)) as (A & B & _).
  split; [exact A | exact B].
Defined.

End PresentationFacts.

(* ================================================================== *)
(** ** Facts about the API functions *)
(* ================================================================== *)

Module ClientsFacts.
Import PyStr PyStrFacts Clients.

(** *** The monad *)

Lemma try_except_ret {A : Type} (body : M A) (a : A) (e : env) (w : world) :
  exists v, fst (try_except body (ret a) e w) = Return v.
Proof.
  unfold try_except, ret. destruct (body e w) as ([v | x], w'); simpl; eauto.
Qed.

Lemma try_except_raise {A : Type} (body : M A) (a : A) (e : env) (w : world)
    (x : exn) :
  fst (body e w) = Raise x -> fst (try_except body (ret a) e w) = Return a.
Proof.
  unfold try_except, ret. destruct (body e w) as ([v | y], w'); simpl;
    [discriminate | reflexivity].
Qed.

Lemma try_except_return {A : Type} (body handler : M A) (v : A) (e : env)
    (w : world) :
  fst (body e w) = Return v -> fst (try_except body handler e w) = Return v.
Proof.
  unfold try_except. destruct (body e w) as ([v' | y], w'); simpl;
    [auto | discriminate].
Qed.

(** *** The cache *)

Lemma cached_In {K V : Type} (keq : K -> K -> bool) (ttl t : Z) (k : K)
    (c : list (K * entry V)) (v : V) :
  cached keq ttl t k c = Some v ->
  exists k' en, In (k', en) c /\ keq k' k = true /\ value en = v.
Proof.
  induction c as [|(k', en) c IH]; simpl; [discriminate|].
  destruct (keq k' k) eqn:E.
  - destruct (t <? stored_at en + ttl)%Z; [|discriminate].
    intros [= <-]. exists k', en. auto.
  - intros H. apply IH in H as (k2 & en2 & I & Q). exists k2, en2. auto.
Qed.

Lemma key_eqb_eq (a b : pystr * pystr) : key_eqb a b = true <-> a = b.
Proof.
  destruct a as (a1, a2), b as (b1, b2). unfold key_eqb. simpl.
  rewrite andb_true_iff, !eqb_eq. split; [intros (-> & ->) | intros [= -> ->]]; auto.
Qed.

(** A decorated function whose body returns a value that can be
    stored returns it; on a miss it then returns what the body returns. *)
Lemma cache_data_total {K V : Type} (keq : K -> K -> bool) (ttl : Z)
    read write fails (f : K -> M V) (k : K) (e : env) (w : world) :
  (exists v, fst (f k e w) = Return v /\ fails e v = None) ->
  exists v, fst (cache_data keq ttl read write fails f k e w) = Return v.
Proof.
  intros (v & H & P). unfold cache_data.
  destruct (cached keq ttl (now e) k (read w)); simpl; eauto.
  destruct (f k e w) as ([v' | x], w'); simpl in *; [|discriminate].
  injection H as ->. rewrite P. simpl. eauto.
Qed.

Lemma cache_data_miss {K V : Type} (keq : K -> K -> bool) (ttl : Z)
    read write fails (f : K -> M V) (k : K) (e : env) (w : world) :
  cached keq ttl (now e) k (read w) = None ->
  (forall v, fst (f k e w) = Return v -> fails e v = None) ->
  fst (cache_data keq ttl read write fails f k e w) = fst (f k e w).
Proof.
  intros H P. unfold cache_data. rewrite H.
  destruct (f k e w) as ([v' | x], w'); [|reflexivity].
  simpl in P. rewrite (P v' eq_refl). reflexivity.
Qed.

(** *** [get_weather] *)

Lemma get_weather_body_no_key (city : pystr) (e : env) (w : world) :
  get_weather_body city [] e w = (Return None, w).
Proof. reflexivity. Qed.


Ltac step :=
  match goal with
  | |- context [match ?x with _ => _ end] => destruct x eqn:?
  | H : context [match ?x with _ => _ end] |- _ => destruct x eqn:?
  end.

Lemma get_weather_body_no_payload (city api_key : pystr) (e : env) (w : world) :
  no_payload (http e (weather_request city api_key)) ->
  fst (get_weather_body city api_key e w) = Return None.
Proof.
  unfold get_weather_body, no_payload, weather_request.
  destruct (nonempty api_key); simpl; [|reflexivity].
  unfold try_except, bind, requests_get, json_of, lift, ret.
  destruct (http e _) as [|r]; simpl; [reflexivity|].
  intros [H | [H | (data & H & D)]].
  - apply Z.eqb_neq in H. rewrite H. reflexivity.
  - rewrite H. destruct (status_code r =? 200)%Z; reflexivity.
  - rewrite H. destruct (status_code r =? 200)%Z; [|reflexivity].
    destruct data; try discriminate D; reflexivity.
Qed.

Lemma get_weather_body_city (city api_key : pystr) (e : env) (w : world)
    (s : WeatherSnapshot) :
  fst (get_weather_body city api_key e w) = Return (Some s) ->
  Clients.city s = city.
Proof.
  unfold get_weather_body.
  destruct (nonempty api_key); simpl; [|discriminate].
  unfold try_except, bind, requests_get, json_of, lift, ret.
  repeat (step; simpl in *; try discriminate);
    try (intros [= <-]; reflexivity);
    repeat match goal with
           | H : (_, _) = (_, _) |- _ => injection H as ? ?; subst
           end; try discriminate;
    try (intros [= <-]; reflexivity).
Qed.

Lemma get_weather_body_log_no_key (city : pystr) (e : env) (w : world) :
  snd (get_weather_body city [] e w) = w.
Proof. reflexivity. Qed.

Lemma get_weather_body_cache (city api_key : pystr) (e : env) (w : world) :
  weather_cache (snd (get_weather_body city api_key e w)) = weather_cache w.
Proof.
  unfold get_weather_body.
  destruct (nonempty api_key); simpl; [|reflexivity].
  unfold try_except, bind, requests_get, json_of, lift, ret.
  repeat (step; simpl in *; try discriminate);
    repeat match goal with
           | H : (_, _) = (_, _) |- _ => injection H as ? ?; subst
           end; try discriminate; reflexivity.
Qed.

(** A cached weather result is one the body can return for its key. *)
Lemma cached_weather_ok (w : world) (t : Z) (city api_key : pystr)
    (v : option WeatherSnapshot) :
  cache_ok w ->
  cached key_eqb 600 t (city, api_key) (weather_cache w) = Some v ->
  (api_key = [] -> v = None) /\
  (forall s, v = Some s -> Clients.city s = city).
Proof.
  intros Ok H. apply cached_In in H as (k' & en & I & Q & <-).
  apply key_eqb_eq in Q. subst k'.
  unfold cache_ok in Ok. rewrite Forall_forall in Ok.
  exact (Ok _ I).
Qed.

(** Calling [get_weather] keeps the cache as it may be. *)
Lemma get_weather_cache_ok (city api_key : pystr) (e : env) (w : world) :
  cache_ok w -> cache_ok (snd (get_weather city api_key e w)).
Proof.
  intros Ok. unfold get_weather, cache_data.
  destruct (cached _ _ _ _ _); simpl; [exact Ok|].
  pose proof (get_weather_body_cache city api_key e w) as C.
  pose proof (get_weather_body_city city api_key e w) as Cy.
  pose proof (get_weather_body_no_key city e w) as Nk.
  destruct (get_weather_body city api_key e w) as ([v | x], w') eqn:B;
    simpl in *.
  - destruct (store_weather_error e v); simpl.
    + unfold cache_ok. rewrite C. exact Ok.
    + unfold cache_ok. simpl. constructor.
      * simpl. split.
        -- intros E. subst api_key. rewrite Nk in B. now injection B as <- _.
        -- intros s E. subst v. now apply Cy.
      * rewrite C. exact Ok.
  - unfold cache_ok. rewrite C. exact Ok.
Qed.

Lemma fresh_world_ok : cache_ok fresh_world.
Proof. constructor. Qed.

(** *** [get_dog_image] *)

Lemma differs_from_str_false (v : pyval) (s : pystr) :
  differs_from_str v s = false <-> v = PStr s.
Proof.
  destruct v; simpl; try (split; discriminate).
  rewrite negb_false_iff, eqb_eq. split; congruence.
Qed.

Lemma get_dog_image_body_total (e : env) (w : world) :
  exists v, fst (get_dog_image_body e w) = Return v.
Proof. apply try_except_ret. Qed.

Lemma get_dog_image_body_no_payload (e : env) (w : world) :
  no_payload (http e dog_request) ->
  fst (get_dog_image_body e w) = Return None.
Proof.
  unfold get_dog_image_body, no_payload, dog_request.
  unfold try_except, bind, requests_get, json_of, lift, ret.
  destruct (http e _) as [|r]; simpl; [reflexivity|].
  intros [H | [H | (data & H & D)]].
  - apply Z.eqb_neq in H. rewrite H. reflexivity.
  - rewrite H. destruct (status_code r =? 200)%Z; reflexivity.
  - rewrite H. destruct (status_code r =? 200)%Z; [|reflexivity].
    destruct data; try discriminate D; reflexivity.
Qed.

Lemma get_dog_image_body_no_image (e : env) (w : world) (r : response)
    (data : pyval) :
  http e dog_request = HttpReplied r -> json r = Some data -> no_image data ->
  fst (get_dog_image_body e w) = Return None.
Proof.
  unfold get_dog_image_body, no_image, dog_request.
  unfold try_except, bind, requests_get, json_of, lift, ret.
  intros -> -> H. simpl.
  destruct (status_code r =? 200)%Z; simpl; [|reflexivity].
  destruct (get data (lit "status")) as [st | x] eqn:S; simpl; [|reflexivity].
  destruct (differs_from_str st (lit "success")) eqn:D; simpl; [reflexivity|].
  apply differs_from_str_false in D. subst st.
  destruct H as [H | (v & -> & T)]; [contradiction|].
  simpl. rewrite T. reflexivity.
Qed.

(** With a payload that carries an image URL, the snapshot holds the URL
    and the breed derived from it. *)
Lemma get_dog_image_body_url (e : env) (w : world) (r : response)
    (data : pyval) (img_url : pystr) :
  http e dog_request = HttpReplied r -> status_code r = 200%Z ->
  json r = Some data ->
  get data (lit "status") = Return (PStr (lit "success")) ->
  get data (lit "message") = Return (PStr img_url) ->
  img_url <> [] ->
  fst (get_dog_image_body e w) =
  Return (Some {| url := img_url; breed := breed_of (search_breeds img_url) |}).
Proof.
  unfold get_dog_image_body, dog_request.
  unfold try_except, bind, requests_get, json_of, lift, ret.
  intros -> -> -> -> -> N. simpl.
  destruct img_url; [contradiction | reflexivity].
Qed.

(** *** The breed of a URL *)

Lemma replace_hyphens (g : pystr) :
  replace (lit "-") (lit " ") g = hyphens_to_spaces g.
Proof. apply (replace_char 45 32). Qed.

Lemma or_else_nonempty (s t : pystr) : s <> [] -> or_else s t = s.
Proof. destruct s; [contradiction | reflexivity]. Qed.

Lemma breed_of_first_segment (pre g post s : pystr) :
  first_segment pre g post s ->
  breed_of (search_breeds s) =
  or_else (strip (hyphens_to_spaces g)) (lit "unknown").
Proof.
  intros (B & L). rewrite (search_breeds_leftmost pre g post s B L).
  unfold breed_of. now rewrite replace_hyphens.
Qed.

Lemma hyphens_to_spaces_plain (g : pystr) :
  plain_ends g -> strip (hyphens_to_spaces g) = hyphens_to_spaces g /\
                  hyphens_to_spaces g <> [].
Proof.
  intros ((c & t & E & Hc & Sc) & (t' & c' & E' & Hc' & Sc')).
  apply N.eqb_neq in Hc, Hc'. split.
  - apply strip_id.
    + exists c, (hyphens_to_spaces t). rewrite E. simpl. now rewrite Hc.
    + exists (hyphens_to_spaces t'), c'. rewrite E'.
      unfold hyphens_to_spaces. rewrite map_app. simpl. now rewrite Hc'.
  - rewrite E. discriminate.
Qed.

Lemma breed_of_no_segment (s : pystr) :
  (forall pre g post, ~ breeds_segment pre g post s) ->
  breed_of (search_breeds s) = lit "unknown".
Proof.
  intros H. apply search_breeds_None in H. now rewrite H.
Qed.

(** [get_dog_image] and [generate_report] leave the weather cache
    alone. *)
Lemma get_dog_image_cache_ok (e : env) (w : world) :
  cache_ok w -> cache_ok (snd (get_dog_image e w)).
Proof.
  intros Ok. unfold get_dog_image, cache_data.
  destruct (cached _ _ _ _ _); simpl; [exact Ok|].
  assert (C : weather_cache (snd (get_dog_image_body e w)) = weather_cache w).
  { unfold get_dog_image_body.
    unfold try_except, bind, requests_get, json_of, lift, ret.
    repeat (step; simpl in *; try discriminate);
      repeat match goal with
             | H : (_, _) = (_, _) |- _ => injection H as ? ?; subst
             end; try discriminate; reflexivity. }
  destruct (get_dog_image_body e w) as ([v | x], w'); simpl in *;
    unfold cache_ok in *; simpl; now rewrite C.
Qed.

(** *** [generate_report] *)

(** The function with a key, step by step: the prompt is built, which
    may raise; then the model is asked, once, and what that raises is
    caught. *)
Lemma generate_report_steps (c : N) (k : pystr)
    (coach_style date_str city : pystr) (mood : Z)
    (habits_checked : list pystr) (weather : option WeatherSnapshot)
    (dog : option ImageSnapshot) (e : env) (w : world) :
  let p := {| p_date := date_str; p_city := city; p_mood := mood;
              p_completed_habits := habits_checked;
              p_weather := weather; p_dog := dog |} in
  let q := ResponsesCreate (c :: k) (lit "gpt-5-mini")
             (_coach_system_prompt coach_style) p in
  generate_report (c :: k) coach_style date_str city mood habits_checked
    weather dog e w =
  match prompt_error e p with
  | Some x => (Raise x, w)
  | None =>
      if payload_prints p then
        match llm e q with
        | LlmFailed => (Return None, issue q w)
        | LlmReplied output_text =>
            let text := strip (match output_text with
                               | Some t => t
                               | None => []
                               end) in
            (Return (if nonempty text then Some text else None), issue q w)
        end
      else (Raise ValueError, w)
  end.
Proof.
  intros p q. unfold generate_report. cbn [nonempty negb]. fold p.
  unfold bind at 1. unfold build_user_msg.
  destruct (prompt_error e p); [reflexivity|].
  destruct (payload_prints p); [|reflexivity].
  unfold try_except, bind, responses_create, ret. fold q.
  destruct (llm e q) as [|[[|c' t]|]]; reflexivity.
Qed.

Lemma generate_report_cache_ok (openai_api_key coach_style date_str city : pystr)
    (mood : Z) (habits_checked : list pystr)
    (weather : option WeatherSnapshot) (dog : option ImageSnapshot)
    (e : env) (w : world) :
  cache_ok w ->
  cache_ok (snd (generate_report openai_api_key coach_style date_str city mood
                   habits_checked weather dog e w)).
Proof.
  intros Ok. destruct openai_api_key as [|c k]; [exact Ok|].
  rewrite generate_report_steps.
  destruct (prompt_error e _); [exact Ok|].
  destruct (payload_prints _); [|exact Ok].
  destruct (llm e _); exact Ok.
Qed.


Lemma generate_report_no_key (coach_style date_str city : pystr) (mood : Z)
    (habits_checked : list pystr) (weather : option WeatherSnapshot)
    (dog : option ImageSnapshot) (e : env) (w : world) :
  generate_report [] coach_style date_str city mood habits_checked weather dog
    e w = (Return None, w).
Proof. reflexivity. Qed.

Lemma nonempty_false (s : pystr) : nonempty s = false <-> s = [].
Proof. destruct s; simpl; split; congruence. Qed.

(** *** The properties of the clients *)

(** C5: when the request is made (nothing usable is cached) and fails,
    with a transport error, a status other than 200 or a body that does
    not parse, and for the image client also with a status field other
    than "success" or a missing image URL, [get_weather] and
    [get_dog_image] return [None]: nothing is raised. *)
Theorem upstream_failure_is_absence (e : env) (w : world)
    (city api_key : pystr) :
  (weather_cached e w city api_key = None ->
   no_payload (http e (weather_request city api_key)) ->
   fst (get_weather city api_key e w) = Return None) /\
  (dog_cached e w = None ->
   no_payload (http e dog_request) \/
   (exists r data, http e dog_request = HttpReplied r /\
                   json r = Some data /\ no_image data) ->
   fst (get_dog_image e w) = Return None).
Proof.
  split.
  - intros Miss F. unfold get_weather.
    pose proof (get_weather_body_no_payload city api_key e w F) as B.
    rewrite cache_data_miss; [exact B | exact Miss |].
    cbn [fst snd]. intros v Hv. rewrite B in Hv. now injection Hv as <-.
  - intros Miss F. unfold get_dog_image.
    rewrite cache_data_miss; [| exact Miss | reflexivity].
    destruct F as [F | (r & data & R & J & F)].
    + now apply get_dog_image_body_no_payload.
    + now apply get_dog_image_body_no_image with (r := r) (data := data).
Qed.

Lemma upstream_failure_is_absence_witness :
  fst (get_weather (lit "Seoul") (lit "key") dead_server fresh_world)
    = Return None /\
  fst (get_dog_image dead_server fresh_world) = Return None.
Proof.
  destruct (upstream_failure_is_absence dead_server fresh_world
              (lit "Seoul") (lit "key")) as (W & D).
  split.
  - apply W; [reflexivity | exact I].
  - apply D; [reflexivity | left; exact I].
Defined.

(** C6: with an empty credential [get_weather] and [generate_report]
    return [None] and the log of requests is as it was. *)
Theorem empty_credential_no_request (e : env) (w : world)
    (city coach_style date_str : pystr) (mood : Z)
    (habits_checked : list pystr) (weather : option WeatherSnapshot)
    (dog : option ImageSnapshot) (Ok : cache_ok w) :
  fst (get_weather city [] e w) = Return None /\
  log (snd (get_weather city [] e w)) = log w /\
  get_weather_body city [] e w = (Return None, w) /\
  generate_report [] coach_style date_str city mood habits_checked weather dog
    e w = (Return None, w).
Proof.
  split; [|split; [|split]]; try reflexivity.
  - unfold get_weather, cache_data.
    destruct (cached _ _ _ _ _) as [v|] eqn:C; simpl; [|reflexivity].
    destruct (cached_weather_ok w _ city [] v Ok C) as (H & _).
    now rewrite H.
  - unfold get_weather, cache_data.
    destruct (cached _ _ _ _ _) as [v|] eqn:C; reflexivity.
Qed.

Lemma empty_credential_no_request_witness :
  cache_ok fresh_world /\
  fst (get_weather (lit "Seoul") [] (bare_server []) fresh_world)
    = Return None /\
  log (snd (get_weather (lit "Seoul") [] (bare_server []) fresh_world)) = [].
Proof.
  split; [exact fresh_world_ok|].
  destruct (empty_credential_no_request (bare_server []) fresh_world
              (lit "Seoul") [] [] 7 [] None None fresh_world_ok)
    as (A & B & _).
  split; [exact A | exact B].
Defined.

(** C7 (amended): when the payload carries an image URL, the breed of
    the snapshot is derived from the leftmost [/breeds/<label>/] segment
    of the URL: the label with every hyphen turned into a space and
    whitespace then stripped at both ends, or "unknown" if nothing is
    left; for a label that neither starts nor ends with a hyphen or
    whitespace this is the label with its hyphens turned into spaces.
    Without such a segment the breed is "unknown". *)
Theorem dog_breed_from_url (e : env) (w : world) (r : response)
    (data : pyval) (img_url : pystr)
    (Miss : dog_cached e w = None)
    (Reply : http e dog_request = HttpReplied r)
    (Status : status_code r = 200%Z)
    (Body : json r = Some data)
    (Success : get data (lit "status") = Return (PStr (lit "success")))
    (Message : get data (lit "message") = Return (PStr img_url))
    (Url : img_url <> []) :
  exists b,
    fst (get_dog_image e w) = Return (Some {| url := img_url; breed := b |}) /\
    (forall pre label post, first_segment pre label post img_url ->
       b = or_else (strip (hyphens_to_spaces label)) (lit "unknown") /\
       (plain_ends label -> b = hyphens_to_spaces label)) /\
    ((forall pre label post, ~ breeds_segment pre label post img_url) ->
     b = lit "unknown").
Proof.
  exists (breed_of (search_breeds img_url)). split; [|split].
  - unfold get_dog_image.
    rewrite cache_data_miss; [| exact Miss | reflexivity].
    now apply get_dog_image_body_url with (r := r) (data := data).
  - intros pre label post F.
    rewrite (breed_of_first_segment pre label post img_url F).
    split; [reflexivity|]. intros P.
    destruct (hyphens_to_spaces_plain label P) as (-> & Ne).
    now apply or_else_nonempty.
  - apply breed_of_no_segment.
Qed.

Lemma dog_breed_from_url_witness :
  exists b,
    fst (get_dog_image
           (dog_server (lit "https://images.dog.ceo/breeds/shiba-inu/abc.jpg"))
           fresh_world)
    = Return (Some {| url := lit "https://images.dog.ceo/breeds/shiba-inu/abc.jpg";
                      breed := b |}) /\
    b = lit "shiba inu".
Proof.
  destruct (dog_breed_from_url
              (dog_server (lit "https://images.dog.ceo/breeds/shiba-inu/abc.jpg"))
              fresh_world
              {| status_code := 200;
                 json := Some (PDict [(lit "status", PStr (lit "success"));
                                      (lit "message",
                                       PStr (lit "https://images.dog.ceo/breeds/shiba-inu/abc.jpg"))]) |}
              (PDict [(lit "status", PStr (lit "success"));
                      (lit "message",
                       PStr (lit "https://images.dog.ceo/breeds/shiba-inu/abc.jpg"))])
              (lit "https://images.dog.ceo/breeds/shiba-inu/abc.jpg")
              eq_refl eq_refl eq_refl eq_refl eq_refl eq_refl
              ltac:(discriminate)) as (b & R & _).
  exists b. split; [exact R|].
  vm_compute in R. injection R as R. symmetry. exact R.
Defined.

(** C7, as first stated, fails: the URL holds the segment
    [/breeds/pug-/], whose label with the hyphen turned into a space is
    "pug " with a space at the end, and the breed is "pug". *)
Lemma dog_breed_trailing_hyphen :
  breeds_segment (lit "https://images.dog.ceo") (lit "pug-") (lit "n1.jpg")
    (lit "https://images.dog.ceo/breeds/pug-/n1.jpg") /\
  fst (get_dog_image
         (dog_server (lit "https://images.dog.ceo/breeds/pug-/n1.jpg"))
         fresh_world)
  = Return (Some {| url := lit "https://images.dog.ceo/breeds/pug-/n1.jpg";
                    breed := lit "pug" |}) /\
  lit "pug" <> hyphens_to_spaces (lit "pug-").
Proof.
  split; [|split].
  - split; [reflexivity | split; [discriminate|]].
    vm_compute. intros H.
    repeat (destruct H as [H | H]; [discriminate H|]). exact H.
  - vm_compute. reflexivity.
  - vm_compute. discriminate.
Qed.



(** C10: a snapshot [get_weather] returns carries the city it was asked
    for, also when the payload holds none of the weather fields: with
    neither a "weather" nor a "main" entry (an empty object, say) the
    snapshot is the city with every other field absent. *)
Theorem weather_snapshot_city (e : env) (w : world) (city api_key : pystr)
    (Ok : cache_ok w) :
  (forall s, fst (get_weather city api_key e w) = Return (Some s) ->
             Clients.city s = city) /\
  (forall r data,
     api_key <> [] -> weather_cached e w city api_key = None ->
     http e (weather_request city api_key) = HttpReplied r ->
     status_code r = 200%Z -> json r = Some data ->
     get data (lit "weather") = Return PNone ->
     get data (lit "main") = Return PNone ->
     fst (get_weather city api_key e w)
       = Return (Some {| Clients.city := city; description := PNone;
                         temp := PNone; feels_like := PNone;
                         humidity := PNone |})).
Proof.
  split.
  - intros s. unfold get_weather, cache_data.
    destruct (cached _ _ _ _ _) as [v|] eqn:C; simpl.
    + intros [= ->].
      destruct (cached_weather_ok w _ city api_key _ Ok C) as (_ & H). auto.
    + pose proof (get_weather_body_city city api_key e w s) as B.
      simpl in B. destruct (get_weather_body city api_key e w) as ([v | x], w');
        simpl in *; [|discriminate].
      destruct (store_weather_error e v); simpl; [discriminate | exact B].
  - intros r data Key Miss Reply Status Body NoWeather NoMain.
    unfold get_weather.
    assert (B : fst (get_weather_body city api_key e w)
                = Return (Some {| Clients.city := city; description := PNone;
                                  temp := PNone; feels_like := PNone;
                                  humidity := PNone |})).
    { unfold get_weather_body. destruct api_key as [|c k]; [contradiction|].
      cbn [nonempty negb].
      unfold try_except, bind, requests_get, json_of, lift, ret.
      unfold weather_request in Reply.
      rewrite Reply, Status, Body. simpl. rewrite NoWeather. simpl.
      rewrite NoMain. reflexivity. }
    rewrite cache_data_miss; [exact B | exact Miss |].
    cbn [fst snd]. intros v Hv. rewrite B in Hv. now injection Hv as <-.
Qed.

Lemma weather_snapshot_city_witness :
  cache_ok fresh_world /\
  fst (get_weather (lit "Seoul") (lit "key") (bare_server []) fresh_world)
    = Return (Some {| Clients.city := lit "Seoul"; description := PNone;
                      temp := PNone; feels_like := PNone;
                      humidity := PNone |}).
Proof.
  split; [exact fresh_world_ok|].
  destruct (weather_snapshot_city (bare_server []) fresh_world (lit "Seoul")
              (lit "key") fresh_world_ok) as (_ & H).
  apply (H {| status_code := 200; json := Some (PDict []) |} (PDict []));
    solve [discriminate | reflexivity].
Defined.

End ClientsFacts.

(* ================================================================== *)
(** ** What the API functions ask for and what they give back *)
(* ================================================================== *)

Module ClientsLaws.
Import PyStr PyStrFacts Clients ClientsFacts Render.

(** *** Requests *)

Lemma get_weather_body_log (city api_key : pystr) (e : env) (w : world) :
  log (snd (get_weather_body city api_key e w)) =
  log w ++ (if nonempty api_key then [weather_request city api_key] else []).
Proof.
  unfold get_weather_body, weather_request.
  destruct (nonempty api_key); simpl; [|now rewrite app_nil_r].
  unfold try_except, bind, requests_get, json_of, lift, ret.
  repeat (step; simpl in *; try discriminate);
    repeat match goal with
           | H : (_, _) = (_, _) |- _ => injection H as ? ?; subst
           end; try discriminate; reflexivity.
Qed.

Lemma get_dog_image_body_log (e : env) (w : world) :
  log (snd (get_dog_image_body e w)) = log w ++ [dog_request].
Proof.
  unfold get_dog_image_body, dog_request.
  unfold try_except, bind, requests_get, json_of, lift, ret.
  repeat (step; simpl in *; try discriminate);
    repeat match goal with
           | H : (_, _) = (_, _) |- _ => injection H as ? ?; subst
           end; try discriminate; reflexivity.
Qed.

Lemma get_dog_image_body_caches (e : env) (w : world) :
  weather_cache (snd (get_dog_image_body e w)) = weather_cache w /\
  dog_cache (snd (get_dog_image_body e w)) = dog_cache w.
Proof.
  unfold get_dog_image_body.
  unfold try_except, bind, requests_get, json_of, lift, ret.
  repeat (step; simpl in *; try discriminate);
    repeat match goal with
           | H : (_, _) = (_, _) |- _ => injection H as ? ?; subst
           end; try discriminate; split; reflexivity.
Qed.


(** X7: a call of [get_weather] adds at most one request to the log, and
    none is repeated after a failure: nothing when the cache answers or
    the key is empty, otherwise the one GET for the city, with the key,
    metric units, Korean and a timeout of 10. *)
Theorem get_weather_requests (e : env) (w : world) (city api_key : pystr) :
  log (snd (get_weather city api_key e w)) =
  log w ++ weather_requests e w city api_key.
Proof.
  unfold get_weather, cache_data, weather_requests, weather_cached.
  destruct (cached key_eqb 600 (now e) (city, api_key) (weather_cache w));
    simpl; [now rewrite app_nil_r|].
  pose proof (get_weather_body_log city api_key e w) as L.
  destruct (get_weather_body city api_key e w) as ([v | x], w'); [|exact L].
  destruct (store_weather_error e v); exact L.
Qed.

(** X8: a call of [get_dog_image] adds nothing to the log when the cache
    answers and otherwise the one GET of the random image, whether it
    succeeds or not. *)
Theorem get_dog_image_requests (e : env) (w : world) :
  log (snd (get_dog_image e w)) = log w ++ dog_requests e w.
Proof.
  unfold get_dog_image, cache_data, dog_requests, dog_cached.
  destruct (cached _ 600 (now e) tt (dog_cache w));
    simpl; [now rewrite app_nil_r|].
  pose proof (get_dog_image_body_log e w) as L.
  destruct (get_dog_image_body e w) as ([v | x], w'); exact L.
Qed.

(** *** [strip] twice *)

Lemma strip_strip (s : pystr) : strip (strip s) = strip s.
Proof.
  destruct (strip_spec s) as (l & r & _ & _ & _ & [E | (H1 & H2)]).
  - rewrite E. reflexivity.
  - now apply strip_id.
Qed.

Lemma strip_In (c : N) (s : pystr) : In c (strip s) -> In c s.
Proof.
  destruct (strip_spec s) as (l & r & E & _). intros H. rewrite E.
  apply in_app_iff. right. apply in_app_iff. now left.
Qed.

Lemma trimmed_report (x t : pystr) :
  (if nonempty (strip x) then Some (strip x) else None) = Some t ->
  t <> [] /\ strip t = t.
Proof.
  destruct (strip x) eqn:E; simpl; [discriminate|]. intros [= <-].
  split; [discriminate|]. rewrite <- E. apply strip_strip.
Qed.

Lemma int_too_long (p : user_payload) :
  (10 ^ 4300 <= Z.abs (p_mood p))%Z -> payload_prints p = false.
Proof.
  intros H. unfold payload_prints, int_prints.
  now rewrite (proj2 (Z.ltb_ge (Z.abs (p_mood p)) (10 ^ 4300)) H).
Qed.

(** X9: with a key, [generate_report] builds its prompt before the
    [try], and what that raises leaves the function before anything is
    sent: the error of the environment, or ValueError when the mood or a
    number of the weather snapshot has more than 4300 digits.  When the
    prompt is built, and always without a key, the function returns: a
    report it returns is not empty and has no whitespace at either end;
    with a key exactly one request went to the model, carrying the
    persona of the style and the data it was given, also when that
    request fails, and without a key none; both caches are as they
    were. *)
Theorem generate_report_result (e : env) (w : world)
    (openai_api_key coach_style date_str city : pystr) (mood : Z)
    (habits_checked : list pystr) (weather : option WeatherSnapshot)
    (dog : option ImageSnapshot) :
  let p := {| p_date := date_str; p_city := city; p_mood := mood;
              p_completed_habits := habits_checked;
              p_weather := weather; p_dog := dog |} in
  let run := generate_report openai_api_key coach_style date_str city mood
               habits_checked weather dog e w in
  (openai_api_key <> [] -> forall x, prompt_error e p = Some x ->
   run = (Raise x, w)) /\
  (openai_api_key <> [] -> prompt_error e p = None ->
   payload_prints p = false -> run = (Raise ValueError, w)) /\
  (openai_api_key <> [] -> (10 ^ 4300 <= Z.abs mood)%Z ->
   exists x, run = (Raise x, w)) /\
  (openai_api_key = [] \/
   (prompt_error e p = None /\ payload_prints p = true) ->
   exists report w',
     run = (Return report, w') /\
     (forall t, report = Some t -> t <> [] /\ strip t = t) /\
     log w' =
       log w ++
       (if nonempty openai_api_key
        then [report_request openai_api_key coach_style date_str city mood
                habits_checked weather dog]
        else []) /\
     weather_cache w' = weather_cache w /\ dog_cache w' = dog_cache w).
Proof.
  intros p run. subst run.
  destruct openai_api_key as [|c k].
  - split; [intros K; contradiction|]. split; [intros K; contradiction|].
    split; [intros K; contradiction|]. intros _.
    exists None, w. split; [reflexivity|].
    rewrite app_nil_r. repeat split; discriminate.
  - rewrite generate_report_steps. fold p. unfold report_request. fold p.
    split; [|split; [|split]].
    + intros _ x E. now rewrite E.
    + intros _ E F. now rewrite E, F.
    + intros _ L. pose proof (int_too_long p L) as F.
      destruct (prompt_error e p) as [x|]; [now exists x|].
      rewrite F. now exists ValueError.
    + intros [K | (E & F)]; [discriminate K|]. rewrite E, F.
      cbn [nonempty].
      destruct (llm e _) as [|output_text].
      * eexists _, _. split; [reflexivity|]. repeat split; discriminate.
      * eexists _, _. split; [reflexivity|].
        split; [intros t; apply trimmed_report|]. repeat split.
Qed.

Lemma generate_report_result_witness :
  strip (lit "B+") = lit "B+".
Proof.
  destruct (generate_report_result (bare_server (lit " B+ ")) fresh_world
              (lit "sk-1") [] (lit "2024-01-08") (lit "Seoul") 8 [] None None)
    as (_ & _ & _ & H).
  assert (P : payload_prints
                {| p_date := lit "2024-01-08"; p_city := lit "Seoul";
                   p_mood := 8; p_completed_habits := [];
                   p_weather := None; p_dog := None |} = true)
    by (vm_compute; reflexivity).
  destruct (H (or_intror (conj eq_refl P))) as (report & w' & E & T & _).
  vm_compute in E. injection E as E _.
  exact (proj2 (T (lit "B+") (eq_sym E))).
Defined.

(** *** The weather payload *)

Lemma get_field (d : list (pystr * pyval)) (k : pystr) :
  get (PDict d) k = Return (field d k).
Proof. unfold get, field. destruct (lookup k d); reflexivity. Qed.

(** The body of [get_weather] on a reply, step by step. *)
Lemma get_weather_body_reply (city api_key : pystr) (e : env) (w : world)
    (r : response) :
  api_key <> [] ->
  http e (weather_request city api_key) = HttpReplied r ->
  fst (get_weather_body city api_key e w) =
  Return
    (if negb (status_code r =? 200)%Z then None
     else
       match json r with
       | Some (PDict d) =>
           match py_or (field d (lit "weather")) (PList [PDict []]),
                 py_or (field d (lit "main")) (PDict []) with
           | PList (PDict wd :: _), PDict md =>
               Some {| Clients.city := city;
                       description := field wd (lit "description");
                       temp := field md (lit "temp");
                       feels_like := field md (lit "feels_like");
                       humidity := field md (lit "humidity") |}
           | _, _ => None
           end
       | _ => None
       end).
Proof.
  intros Key Reply. unfold get_weather_body.
  destruct api_key as [|c k]; [contradiction|]. cbn [nonempty negb].
  unfold try_except, bind, requests_get, json_of, lift, ret.
  unfold weather_request in Reply. rewrite Reply. cbn [fst snd].
  destruct (negb (status_code r =? 200)%Z); [reflexivity|].
  destruct (json r) as [data|]; [|reflexivity].
  destruct data as [| | | | |l|d]; try reflexivity.
  rewrite !get_field. cbv beta iota.
  destruct (py_or (field d (lit "weather")) (PList [PDict []]))
    as [| | | |[|c0 s0]|[|v0 l0]|d0] eqn:Pw; try reflexivity.
  destruct v0 as [| | | | |l1|wd]; try reflexivity.
  cbn [item0]. cbv beta iota. rewrite !get_field. cbv beta iota.
  destruct (py_or (field d (lit "main")) (PDict [])) as [| | | | |l2|md] eqn:Pm;
    try reflexivity.
  rewrite !get_field. reflexivity.
Qed.

(** On a miss, the decorated [get_weather] gives what its body gives
    when that can be stored, and raises when it cannot. *)
Lemma get_weather_miss (city api_key : pystr) (e : env) (w : world) :
  weather_cached e w city api_key = None ->
  fst (get_weather city api_key e w) =
  match fst (get_weather_body city api_key e w) with
  | Return v =>
      match store_weather_error e v with
      | None => Return v
      | Some x => Raise x
      end
  | Raise x => Raise x
  end.
Proof.
  intros Miss. unfold get_weather, cache_data.
  unfold weather_cached in Miss. rewrite Miss. cbn [fst snd].
  destruct (get_weather_body city api_key e w) as ([v | x], w');
    [|reflexivity].
  cbn [fst]. destruct (store_weather_error e v); reflexivity.
Qed.

(** X10: when [get_weather] asks the service (a key, nothing cached), it
    returns a snapshot exactly when the status is 200, the body is an
    object, ["weather"] is missing, empty or a list that starts with an
    object, ["main"] is missing, empty or an object, and the cache can
    store the snapshot; the description is that of the first weather
    entry, the three numbers are those of ["main"], and a missing field is
    [None], not an error.  When all this holds but the cache fails to
    store the snapshot, the call raises what the cache raises, outside the
    [try] of the function.  A snapshot whose four values are neither lists
    nor objects is always stored. *)
Theorem get_weather_snapshot (e : env) (w : world) (city api_key : pystr)
    (r : response) (s : WeatherSnapshot)
    (Key : api_key <> [])
    (Miss : weather_cached e w city api_key = None)
    (Reply : http e (weather_request city api_key) = HttpReplied r) :
  let shaped :=
    status_code r = 200%Z /\
    exists d wd rest md,
      json r = Some (PDict d) /\
      py_or (field d (lit "weather")) (PList [PDict []])
        = PList (PDict wd :: rest) /\
      py_or (field d (lit "main")) (PDict []) = PDict md /\
      s = {| Clients.city := city;
             description := field wd (lit "description");
             temp := field md (lit "temp");
             feels_like := field md (lit "feels_like");
             humidity := field md (lit "humidity") |} in
  (fst (get_weather city api_key e w) = Return (Some s) <->
   shaped /\ store_weather_error e (Some s) = None) /\
  (shaped -> forall x, store_weather_error e (Some s) = Some x ->
   fst (get_weather city api_key e w) = Raise x) /\
  (nested (description s) = false -> nested (temp s) = false ->
   nested (feels_like s) = false -> nested (humidity s) = false ->
   store_weather_error e (Some s) = None).
Proof.
  intros shaped.
  assert (B : fst (get_weather_body city api_key e w) = Return (Some s)
              <-> shaped).
  { subst shaped.
    rewrite (get_weather_body_reply city api_key e w r Key Reply).
    split.
    - destruct (Z.eqb_spec (status_code r) 200) as [St | St]; cbn [negb];
        [|discriminate].
      destruct (json r) as [[| | | | |l|d]|]; cbv beta iota; try discriminate.
      destruct (py_or (field d (lit "weather")) (PList [PDict []]))
        as [| | | | |[|[| | | | |l1|wd] l0]|d0] eqn:Pw;
        cbv beta iota; try discriminate.
      destruct (py_or (field d (lit "main")) (PDict []))
        as [| | | | |l2|md] eqn:Pm;
        cbv beta iota; try discriminate.
      intros [= <-]. split; [exact St|]. exists d, wd, l0, md. auto.
    - intros (St & d & wd & rest & md & J & Pw & Pm & ->).
      rewrite St, J, Pw, Pm. reflexivity. }
  rewrite (get_weather_miss city api_key e w Miss).
  split; [|split].
  - split.
    + destruct (fst (get_weather_body city api_key e w)) as [v | x];
        [|discriminate].
      destruct (store_weather_error e v) eqn:P; [discriminate|].
      intros [= ->]. split; [now apply B | exact P].
    + intros (Sh & P). apply B in Sh. now rewrite Sh, P.
  - intros Sh x P. apply B in Sh. now rewrite Sh, P.
  - intros N1 N2 N3 N4. unfold store_weather_error, store_value_error.
    now rewrite N1, N2, N3, N4.
Qed.

Lemma get_weather_snapshot_witness :
  fst (get_weather (lit "Seoul") (lit "key") sunny_server fresh_world) =
  Return (Some {| Clients.city := lit "Seoul";
                  description := PStr (lit "clear sky");
                  temp := PInt 21; feels_like := PInt 20;
                  humidity := PInt 40 |}).
Proof.
  apply (proj1 (get_weather_snapshot sunny_server fresh_world (lit "Seoul")
           (lit "key")
           {| status_code := 200;
              json := Some (PDict
                [(lit "weather",
                  PList [PDict [(lit "description", PStr (lit "clear sky"))]]);
                 (lit "main",
                  PDict [(lit "temp", PInt 21); (lit "feels_like", PInt 20);
                         (lit "humidity", PInt 40)])]) |}
           _ ltac:(discriminate) eq_refl eq_refl)).
  split; [|reflexivity]. split; [reflexivity|].
  eexists _, _, _, _. repeat split; reflexivity.
Defined.

(** *** The cache *)

Lemma key_eqb_refl (k : pystr * pystr) : key_eqb k k = true.
Proof. now apply key_eqb_eq. Qed.

(** X11: a call of [get_weather] that asked the service and returned
    has stored what it returned, a failure ([None]) as well as a snapshot:
    a second call for the same city and key less than 600 seconds later
    returns the same result and sends nothing.  A call that raised (the
    result could not be stored) has left the cache as it was. *)
Theorem get_weather_memoised (e1 e2 : env) (w : world) (city api_key : pystr)
    (Miss : weather_cached e1 w city api_key = None)
    (Soon : (now e2 < now e1 + 600)%Z) :
  let w1 := snd (get_weather city api_key e1 w) in
  (forall v, fst (get_weather city api_key e1 w) = Return v ->
     fst (get_weather city api_key e2 w1) = Return v /\
     snd (get_weather city api_key e2 w1) = w1) /\
  (forall x, fst (get_weather city api_key e1 w) = Raise x ->
     weather_cache w1 = weather_cache w).
Proof.
  intros w1. subst w1.
  pose proof (get_weather_body_cache city api_key e1 w) as C.
  unfold weather_cached in Miss.
  assert (E : get_weather city api_key e1 w =
              match get_weather_body city api_key e1 w with
              | (Return v, w') =>
                  match store_weather_error e1 v with
                  | None =>
                      (Return v,
                       write_weather_cache
                         ((city, api_key,
                           {| stored_at := now e1; value := v |})
                          :: weather_cache w') w')
                  | Some x => (Raise x, w')
                  end
              | (Raise x, w') => (Raise x, w')
              end).
  { unfold get_weather, cache_data. rewrite Miss. reflexivity. }
  rewrite E. clear E.
  destruct (get_weather_body city api_key e1 w) as ([v' | x'], w');
    cbn [fst snd] in *.
  - destruct (store_weather_error e1 v'); cbn [fst snd].
    + split; [discriminate|]. intros _ _. exact C.
    + split; [|discriminate]. intros v [= <-].
      unfold get_weather, cache_data.
      cbn [weather_cache write_weather_cache cached].
      rewrite key_eqb_refl. cbn [stored_at value].
      apply Z.ltb_lt in Soon. rewrite Soon. split; reflexivity.
  - split; [discriminate|]. intros _ _. exact C.
Qed.

Lemma get_weather_memoised_witness :
  fst (get_weather (lit "Seoul") (lit "key") dead_server
         (snd (get_weather (lit "Seoul") (lit "key") dead_server fresh_world)))
  = Return None.
Proof.
  exact (proj1 (proj1 (get_weather_memoised dead_server dead_server fresh_world
                  (lit "Seoul") (lit "key") eq_refl eq_refl) None eq_refl)).
Defined.

(** X19: the weather cache is keyed by city and key: a call for one
    pair leaves what the cache holds for every other pair as it was. *)
Theorem get_weather_cache_other (e1 e2 : env) (w : world)
    (city api_key city' api_key' : pystr)
    (Other : (city', api_key') <> (city, api_key)) :
  weather_cached e2 (snd (get_weather city api_key e1 w)) city' api_key' =
  weather_cached e2 w city' api_key'.
Proof.
  unfold weather_cached, get_weather, cache_data.
  destruct (cached key_eqb 600 (now e1) (city, api_key) (weather_cache w));
    cbn [snd]; [reflexivity|].
  pose proof (get_weather_body_cache city api_key e1 w) as C.
  cbn [fst snd].
  destruct (get_weather_body city api_key e1 w) as ([v | x], w');
    cbn [fst snd] in *.
  - destruct (store_weather_error e1 v); cbn [snd]; [now rewrite C|].
    cbn [weather_cache write_weather_cache cached].
    assert (E : key_eqb (city, api_key) (city', api_key') = false).
    { destruct (key_eqb (city, api_key) (city', api_key')) eqn:K; auto.
      apply key_eqb_eq in K. exfalso. apply Other. now symmetry. }
    rewrite E, C. reflexivity.
  - now rewrite C.
Qed.

Lemma get_weather_cache_other_witness :
  weather_cached sunny_server
    (snd (get_weather (lit "Seoul") (lit "key") sunny_server fresh_world))
    (lit "Busan") (lit "key") = None.
Proof.
  rewrite (get_weather_cache_other sunny_server sunny_server fresh_world
             (lit "Seoul") (lit "key") (lit "Busan") (lit "key")
             ltac:(discriminate)).
  reflexivity.
Defined.

(** *** The image snapshot *)

Lemma hyphens_to_spaces_In (c : N) (g : pystr) :
  In c (hyphens_to_spaces g) -> c <> 45%N /\ (c = 32%N \/ In c g).
Proof.
  unfold hyphens_to_spaces. rewrite in_map_iff. intros (x & E & Hx).
  destruct (x =? 45)%N eqn:Ex; subst c.
  - split; [discriminate | now left].
  - apply N.eqb_neq in Ex. split; [exact Ex | now right].
Qed.

(** The breed derived from a URL is never empty, holds neither a hyphen
    nor a slash, and has no whitespace at either end. *)
Lemma breed_of_clean (u : pystr) :
  let b := breed_of (search_breeds u) in
  b <> [] /\ ~ In 45%N b /\ ~ In slash b /\ strip b = b.
Proof.
  assert (U : lit "unknown" <> [] /\ ~ In 45%N (lit "unknown") /\
              ~ In slash (lit "unknown") /\ strip (lit "unknown") = lit "unknown").
  { repeat split; try discriminate; try reflexivity;
      vm_compute; intros H;
      repeat (destruct H as [H | H]; [discriminate H|]); exact H. }
  destruct (search_breeds u) as [g|] eqn:S; [|exact U].
  apply search_breeds_Some in S as (pre & post & (_ & _ & Ng) & _).
  unfold breed_of. rewrite replace_hyphens.
  destruct (strip (hyphens_to_spaces g)) as [|c t] eqn:E; [exact U|].
  cbn [or_else nonempty]. rewrite <- E.
  split; [rewrite E; discriminate | split; [|split]].
  - intros H. apply strip_In, hyphens_to_spaces_In in H. tauto.
  - intros H. apply strip_In, hyphens_to_spaces_In in H as (_ & [H | H]).
    + discriminate H.
    + contradiction.
  - apply strip_strip.
Qed.

Lemma get_dog_image_body_Some (e : env) (w : world) (s : ImageSnapshot) :
  fst (get_dog_image_body e w) = Return (Some s) ->
  url s <> [] /\ breed s = breed_of (search_breeds (url s)).
Proof.
  unfold get_dog_image_body.
  unfold try_except, bind, requests_get, json_of, lift, ret.
  destruct (http e _) as [|r]; cbn [fst snd]; [discriminate|].
  destruct (negb (status_code r =? 200)%Z); cbn [fst snd]; [discriminate|].
  destruct (json r) as [data|]; cbn [fst snd]; [|discriminate].
  destruct (get data (lit "status")) as [st|x]; cbn [fst snd]; [|discriminate].
  destruct (differs_from_str st (lit "success")); cbn [fst snd]; [discriminate|].
  destruct (get data (lit "message")) as [img_url|x]; cbn [fst snd];
    [|discriminate].
  destruct (truthy img_url) eqn:T; cbn [negb fst snd]; [|discriminate].
  destruct img_url as [| | | |u| |]; cbn [search_breeds_in fst snd];
    try discriminate.
  intros [= <-]. cbn [url breed]. split; [|reflexivity].
  destruct u; [discriminate T | discriminate].
Qed.

Lemma cached_dog_ok (w : world) (t : Z) (v : option ImageSnapshot) :
  dog_cache_ok w ->
  cached (fun _ _ : unit => true) 600 t tt (dog_cache w) = Some v ->
  forall s, v = Some s ->
    url s <> [] /\ breed s = breed_of (search_breeds (url s)).
Proof.
  intros Ok H. apply cached_In in H as (k' & en & I & _ & <-).
  unfold dog_cache_ok in Ok. rewrite Forall_forall in Ok.
  exact (Ok _ I).
Qed.

Lemma get_dog_image_cache_kept (e : env) (w : world) :
  dog_cache_ok w -> dog_cache_ok (snd (get_dog_image e w)).
Proof.
  intros Ok. unfold get_dog_image, cache_data.
  destruct (cached _ _ _ _ _); cbn [snd]; [exact Ok|].
  pose proof (get_dog_image_body_Some e w) as B.
  destruct (get_dog_image_body_caches e w) as (_ & C).
  destruct (get_dog_image_body e w) as ([v | x], w'); cbn [fst snd] in *.
  - cbn [store_dog_error snd]. unfold dog_cache_ok. cbn [dog_cache write_dog_cache].
    constructor; [|rewrite C; exact Ok].
    intros s Es. cbn [snd value] in Es. subst v. now apply B.
  - unfold dog_cache_ok. rewrite C. exact Ok.
Qed.

(** X12: a snapshot [get_dog_image] returns, fresh or from a cache filled
    by earlier calls, has a URL that is not empty, so that the image
    panel shows it, and a breed that is not empty, holds no hyphen and no
    slash and has no whitespace at either end; the cache stays one filled
    by such calls. *)
Theorem get_dog_image_snapshot (e : env) (w : world) (s : ImageSnapshot)
    (Ok : dog_cache_ok w)
    (Got : fst (get_dog_image e w) = Return (Some s)) :
  url s <> [] /\ show_dog (Some s) = Some (url s, breed s) /\
  breed s <> [] /\ ~ In 45%N (breed s) /\ ~ In slash (breed s) /\
  strip (breed s) = breed s /\
  dog_cache_ok (snd (get_dog_image e w)).
Proof.
  assert (H : url s <> [] /\ breed s = breed_of (search_breeds (url s))).
  { revert Got. unfold get_dog_image, cache_data.
    destruct (cached _ _ _ _ _) as [v|] eqn:C; cbn [fst].
    - intros [= ->]. exact (cached_dog_ok w _ _ Ok C s eq_refl).
    - pose proof (get_dog_image_body_Some e w s) as B.
      destruct (get_dog_image_body e w) as ([v | x], w'); cbn [fst] in *;
        [exact B | discriminate]. }
  destruct H as (U & B).
  destruct (breed_of_clean (url s)) as (B1 & B2 & B3 & B4).
  rewrite <- B in B1, B2, B3, B4.
  split; [exact U|]. split.
  - unfold show_dog. destruct (url s); [contradiction | reflexivity].
  - repeat split; auto. now apply get_dog_image_cache_kept.
Qed.

Lemma get_dog_image_snapshot_witness :
  show_dog (Some {| url := lit "https://images.dog.ceo/breeds/shiba-inu/abc.jpg";
                    breed := lit "shiba inu" |})
  = Some (lit "https://images.dog.ceo/breeds/shiba-inu/abc.jpg",
          lit "shiba inu").
Proof.
  assert (Ok : dog_cache_ok fresh_world) by constructor.
  exact (proj1 (proj2
    (get_dog_image_snapshot
       (dog_server (lit "https://images.dog.ceo/breeds/shiba-inu/abc.jpg"))
       fresh_world
       {| url := lit "https://images.dog.ceo/breeds/shiba-inu/abc.jpg";
          breed := lit "shiba inu" |}
       Ok eq_refl))).
Defined.

(** X13: [get_dog_image] takes no argument and its result is stored for
    600 seconds: after a call that asked the service, a call less than
    600 seconds later returns the same result, the same image or the same
    failure, and sends nothing. *)
Theorem get_dog_image_memoised (e1 e2 : env) (w : world)
    (Miss : dog_cached e1 w = None)
    (Soon : (now e2 < now e1 + 600)%Z) :
  let w1 := snd (get_dog_image e1 w) in
  fst (get_dog_image e2 w1) = fst (get_dog_image e1 w) /\
  snd (get_dog_image e2 w1) = w1.
Proof.
  intros w1.
  assert (E1 : exists v w',
             get_dog_image e1 w =
             (Return v,
              write_dog_cache
                ((tt, {| stored_at := now e1; value := v |}) :: dog_cache w')
                w')).
  { unfold get_dog_image, cache_data. unfold dog_cached in Miss.
    rewrite Miss.
    destruct (get_dog_image_body_total e1 w) as (v & T).
    destruct (get_dog_image_body e1 w) as ([v' | x], w');
      simpl in T; [|discriminate]. now exists v', w'. }
  destruct E1 as (v & w' & E1). subst w1. rewrite E1. cbn [fst snd].
  unfold get_dog_image, cache_data.
  cbn [dog_cache write_dog_cache cached stored_at value].
  apply Z.ltb_lt in Soon. rewrite Soon. split; reflexivity.
Qed.

Lemma get_dog_image_memoised_witness :
  fst (get_dog_image dead_server (snd (get_dog_image dead_server fresh_world)))
  = fst (get_dog_image dead_server fresh_world).
Proof.
  exact (proj1 (get_dog_image_memoised dead_server dead_server fresh_world
                  eq_refl eq_refl)).
Defined.

End ClientsLaws.

(* ================================================================== *)
(** ** Facts about the check-in and the report button *)
(* ================================================================== *)

Module RenderFacts.
Import PyStr PyStrFacts Clients ClientsFacts ClientsLaws Render.
Import Presentation.

(** *** The checked habits *)

Lemma completed_count_acc (flags : list bool) (a : Z) :
  fold_left (fun acc (b : bool) => (acc + Z.b2z b)%Z) flags a =
  (a + completed_count flags)%Z.
Proof.
  unfold completed_count. revert a.
  induction flags as [|b flags IH]; intros a; simpl; [lia|].
  rewrite IH, (IH (Z.b2z b)). lia.
Qed.

Lemma completed_count_cons (b : bool) (flags : list bool) :
  completed_count (b :: flags) = (Z.b2z b + completed_count flags)%Z.
Proof. unfold completed_count at 1. simpl. apply completed_count_acc. Qed.

Lemma checked_of_length (hs : list (pystr * pystr)) (flags : list bool) :
  (length flags <= length hs)%nat ->
  Z.of_nat (length (checked_of hs flags)) = completed_count flags.
Proof.
  revert flags. induction hs as [|(emoji, name) hs IH]; intros [|b flags] L;
    try reflexivity; [simpl in L; lia|].
  rewrite completed_count_cons. cbn [checked_of].
  assert (L' : (length flags <= length hs)%nat) by (simpl in L; lia).
  destruct b; cbn [length Z.b2z]; [rewrite Nat2Z.inj_succ|];
    rewrite (IH flags L'); lia.
Qed.

Lemma checked_of_incl (hs : list (pystr * pystr)) (flags : list bool) :
  incl (checked_of hs flags) (map snd hs).
Proof.
  revert flags. induction hs as [|(emoji, name) hs IH]; intros [|b flags];
    simpl; try (intros x []).
  destruct b.
  - intros x [<- | H]; [now left | right; exact (IH flags x H)].
  - intros x H. right. exact (IH flags x H).
Qed.

(** X14: for the five checkboxes, the habit names handed to the report
    are as many as the completed count shown, and each is the name of one
    of the five habits. *)
Theorem checked_matches_count (c1 c2 c3 c4 c5 : bool) :
  let flags := [c1; c2; c3; c4; c5] in
  Z.of_nat (length (checked flags)) = completed_count flags /\
  incl (checked flags) (map snd habits) /\
  (0 <= completed_count flags <= 5)%Z.
Proof.
  intros flags. split; [|split].
  - apply checked_of_length. simpl. lia.
  - apply checked_of_incl.
  - rewrite <- (checked_of_length habits flags) by (simpl; lia).
    pose proof (checked_of_incl habits flags) as I.
    assert (L : (length (checked flags) <= 5)%nat).
    { unfold checked, flags. destruct c1, c2, c3, c4, c5; simpl; lia. }
    unfold checked in L. lia.
Qed.

(** *** The render pass *)

Lemma rate_small (n : Z) : (0 <= n <= 5)%Z -> rate n = Some (20 * n)%Z.
Proof.
  intros H.
  assert (E : (n = 0 \/ n = 1 \/ n = 2 \/ n = 3 \/ n = 4 \/ n = 5)%Z) by lia.
  destruct PresentationFacts.rate_table as (R0 & R1 & R2 & R3 & R4 & R5).
  destruct E as [-> | [-> | [-> | [-> | [-> | ->]]]]]; assumption.
Qed.

(** X15: for any five checkboxes the render pass computes its rate
    without an exception; when fewer than 7 rows of the store are dated
    after today, the store then holds one row for today, with the count of
    checked boxes, 20 times that count as the rate, between 0 and 100,
    and the mood of the slider. *)
Theorem render_writes_today (today_str : pystr) (c1 c2 c3 c4 c5 : bool)
    (mood : Z) (h : History.history)
    (W : History.wf h)
    (Few : (length (History.later_than today_str h) < 7)%nat) :
  let n := completed_count [c1; c2; c3; c4; c5] in
  exists h',
    render_metrics today_str [c1; c2; c3; c4; c5] mood h = Some h' /\
    History.rows_for today_str h' = [History.Row today_str (20 * n) n mood] /\
    (0 <= n <= 5)%Z /\ (0 <= 20 * n <= 100)%Z.
Proof.
  intros n.
  assert (R : (0 <= n <= 5)%Z).
  { subst n. destruct c1, c2, c3, c4, c5; vm_compute; split; discriminate. }
  unfold render_metrics. fold n. rewrite (rate_small n R).
  eexists. split; [reflexivity|]. split; [|lia].
  destruct (HistoryFacts.upsert_today_row today_str (20 * n) n mood h W)
    as (Rows & _).
  rewrite Rows. apply Nat.ltb_lt in Few. now rewrite Few.
Qed.

Lemma render_writes_today_witness :
  exists h',
    render_metrics (lit "2024-01-08") [true; true; false; false; true] 8
      History.full_store = Some h' /\
    History.rows_for (lit "2024-01-08") h'
      = [History.Row (lit "2024-01-08") 60 3 8].
Proof.
  destruct (render_writes_today (lit "2024-01-08") true true false false true 8
              History.full_store HistoryFacts.full_store_wf
              ltac:(apply Nat.ltb_lt; vm_compute; reflexivity))
    as (h' & E & R & _).
  exists h'. split; [exact E | exact R].
Defined.

(** *** The report button *)



(** A call of [generate_report]: what a call that returns has done, and
    what a call that raises has met. *)
Lemma generate_report_run (e : env) (w : world)
    (openai_api_key coach_style date_str city : pystr) (mood : Z)
    (habits_checked : list pystr) (weather : option WeatherSnapshot)
    (dog : option ImageSnapshot) :
  let p := {| p_date := date_str; p_city := city; p_mood := mood;
              p_completed_habits := habits_checked;
              p_weather := weather; p_dog := dog |} in
  let run := generate_report openai_api_key coach_style date_str city mood
               habits_checked weather dog e w in
  (forall report w', run = (Return report, w') ->
     (openai_api_key = [] -> report = None) /\
     (forall t, report = Some t -> t <> []) /\
     (openai_api_key <> [] ->
      prompt_error e p = None /\ payload_prints p = true) /\
     log w' =
       log w ++
       (if nonempty openai_api_key
        then [report_request openai_api_key coach_style date_str city mood
                habits_checked weather dog]
        else [])) /\
  (forall x w', run = (Raise x, w') ->
     openai_api_key <> [] /\
     (prompt_error e p = Some x \/
      (x = ValueError /\ payload_prints p = false))).
Proof.
  intros p run. subst run.
  destruct openai_api_key as [|c k].
  - rewrite generate_report_no_key. cbn [nonempty]. split.
    + intros report w' [= <- <-]. rewrite app_nil_r.
      split; [reflexivity|]. split; [discriminate|].
      split; [|reflexivity]. intros N. now destruct N.
    + discriminate.
  - rewrite generate_report_steps. fold p. unfold report_request. fold p.
    cbn [nonempty].
    destruct (prompt_error e p) as [x0|].
    { split; [discriminate|]. intros x w' [= <- <-].
      split; [discriminate | now left]. }
    destruct (payload_prints p).
    2:{ split; [discriminate|]. intros x w' [= <- <-].
        split; [discriminate | now right]. }
    destruct (llm e _) as [|output_text].
    + split; [|discriminate]. intros report w' [= <- <-].
      repeat split; discriminate.
    + split; [|discriminate]. cbv zeta. intros report w' [= <- <-].
      repeat split; try discriminate.
      intros t H. exact (proj1 (trimmed_report _ t H)).
Qed.



(** X17: what the report panel shows after a call of [generate_report]
    that returned: the message asking for a key exactly when the key is
    empty, and then no request was sent; the text exactly when a report
    came back; and the message of failure only with a key, after one
    request to the model.  Without a key the call always returns, and the
    panel asks for the key. *)
Theorem report_panel_cases (e : env) (w : world)
    (openai_key coach_style date_str city : pystr) (mood : Z)
    (habits_checked : list pystr) (weather : option WeatherSnapshot)
    (dog : option ImageSnapshot) :
  let run := generate_report openai_key coach_style date_str city mood
               habits_checked weather dog e w in
  (forall report w', run = (Return report, w') ->
     (show_report openai_key report = KeyRequired <-> openai_key = []) /\
     (openai_key = [] -> log w' = log w) /\
     (forall t, show_report openai_key report = ReportText t <->
                report = Some t) /\
     (show_report openai_key report = GenerationFailed ->
      report = None /\
      log w' = log w ++ [report_request openai_key coach_style date_str city
                           mood habits_checked weather dog])) /\
  (openai_key = [] ->
   run = (Return None, w) /\ show_report openai_key None = KeyRequired).
Proof.
  intros run. subst run. split.
  - intros report w' E.
    destruct (generate_report_run e w openai_key coach_style date_str city mood
                habits_checked weather dog) as (Ret & _).
    destruct (Ret report w' E) as (Nk & Ne & _ & L).
    unfold show_report.
    destruct openai_key as [|c k]; cbn [nonempty negb] in *.
    + rewrite (Nk eq_refl), app_nil_r in *. repeat split; auto; discriminate.
    + destruct report as [[|c' t']|].
      * exfalso. now apply (Ne [] eq_refl).
      * cbn [nonempty]. repeat split; try discriminate.
        -- intros [= <-]. reflexivity.
        -- intros [= <-]. reflexivity.
      * repeat split; try discriminate. exact L.
  - intros ->. split; reflexivity.
Qed.

Lemma report_panel_cases_witness :
  generate_report [] [] (lit "2024-01-08") (lit "Seoul") 8 [] None None
    dead_server fresh_world = (Return None, fresh_world) /\
  show_report [] None = KeyRequired.
Proof.
  exact (proj2 (report_panel_cases dead_server fresh_world [] []
                  (lit "2024-01-08") (lit "Seoul") 8 [] None None) eq_refl).
Defined.

End RenderFacts.
